(** * claude-concilium: the MCP servers' executors, classifiers and chat tools

    A shallow embedding of [servers/mcp-openai/server.js],
    [servers/mcp-qwen/server.js] and the Gemini server, together with the
    fallback protocol of the Concilium skill.  Each server is a module that
    holds, in the order of its source file, [detectError], the executor and
    the registered tools.

    Conventions of the embedding.
    - JavaScript strings are Rocq [string]s, read as ASCII text:
      [toLowerCase] maps [A-Z] to [a-z], [trim] strips the ASCII white space
      characters, [length] counts characters.
    - A child process is the list of events it delivers to the callbacks
      registered by [runCodex] / [runQwen] / [runGemini], together with the
      moment it exits, which no callback listens to but which [proc.kill]
      depends on; the two timers are explicit pieces of state, and a timer
      callback runs only while its timer is armed.  The command line handed to [spawn] and the text
      written to the child's stdin only decide what the process does, which
      the trace already says, so the prompt, the model and the working
      directory are not arguments of the embedded functions.
    - A tool handler returns [None] while its [await] is still pending (the
      trace has neither closed the process nor reported a spawn error).
    - [log] writes to the server's own stderr and is not part of any value
      returned to the caller; it is left out. *)

From Stdlib Require Import Bool List NArith ZArith Lia Ascii String DecimalString.
Import ListNotations.

Open Scope string_scope.
Open Scope N_scope.

(** ** JavaScript string primitives *)

Module JS.

Definition lower_char (c : ascii) : ascii :=
  let n := N_of_ascii c in
  if (65 <=? n) && (n <=? 90) then ascii_of_N (n + 32) else c.

(** [String.prototype.toLowerCase] *)
Fixpoint toLowerCase (s : string) : string :=
  match s with
  | EmptyString => EmptyString
  | String c s' => String (lower_char c) (toLowerCase s')
  end.

(** [String.prototype.startsWith] *)
Definition startsWith (pat s : string) : bool := String.prefix pat s.

(** [String.prototype.includes] *)
Fixpoint includes (pat s : string) : bool :=
  startsWith pat s ||
  match s with
  | EmptyString => false
  | String _ s' => includes pat s'
  end.

(** White space in the sense of [trim]: TAB, LF, VT, FF, CR and SPACE. *)
Definition isWhiteSpace (c : ascii) : bool :=
  let n := N_of_ascii c in
  ((9 <=? n) && (n <=? 13)) || (n =? 32).

Fixpoint trimStart (s : string) : string :=
  match s with
  | EmptyString => EmptyString
  | String c s' => if isWhiteSpace c then trimStart s' else s
  end.

Fixpoint trimEnd (s : string) : string :=
  match s with
  | EmptyString => EmptyString
  | String c s' =>
      match trimEnd s' with
      | EmptyString => if isWhiteSpace c then EmptyString else String c EmptyString
      | r => String c r
      end
  end.

(** [String.prototype.trim] *)
Definition trim (s : string) : string := trimEnd (trimStart s).

(** Truthiness of a string: only the empty string is falsy. *)
Definition truthy (s : string) : bool :=
  match s with EmptyString => false | _ => true end.

(** [s.length], as a binary number. *)
Fixpoint strlen (s : string) : N :=
  match s with
  | EmptyString => 0
  | String _ s' => N.succ (strlen s')
  end.

Fixpoint drop (n : nat) (s : string) : string :=
  match n, s with
  | O, _ => s
  | S _, EmptyString => EmptyString
  | S n', String _ s' => drop n' s'
  end.

(** [s.slice(-k)]: the last [k] characters of [s]. *)
Definition sliceLast (k : nat) (s : string) : string :=
  drop (String.length s - k) s.

Definition LF : ascii := ascii_of_N 10.
Definition CR : ascii := ascii_of_N 13.

(** [s.split("\n")] *)
Fixpoint splitLines (s : string) : list string :=
  match s with
  | EmptyString => [EmptyString]
  | String c s' =>
      if Ascii.eqb c LF then EmptyString :: splitLines s'
      else match splitLines s' with
           | [] => [String c EmptyString]
           | l :: ls => String c l :: ls
           end
  end.

(** [lines.join("\n")] *)
Fixpoint joinLines (ls : list string) : string :=
  match ls with
  | [] => EmptyString
  | [l] => l
  | l :: ls' => l ++ String LF (joinLines ls')
  end.

(** Template rendering of a non-negative integer. *)
Definition showN (n : N) : string := NilZero.string_of_uint (N.to_uint n).

(** Template rendering of the [exitCode] handed to the [close] listener:
    a number, or [null] when the process was ended by a signal. *)
Definition showExit (exitCode : option Z) : string :=
  match exitCode with
  | None => "null"
  | Some z => NilZero.string_of_int (Z.to_int z)
  end.

(** Rendering of [timeoutMs / 1000] for a whole number of milliseconds
    (exact below 10^15 ms, where the quotient prints with at most three
    decimals). *)
Definition showSeconds (timeoutMs : N) : string :=
  let q := timeoutMs / 1000 in
  let r := timeoutMs mod 1000 in
  let d1 := r / 100 in
  let d2 := (r / 10) mod 10 in
  let d3 := r mod 10 in
  showN q ++
  (if r =? 0 then ""
   else "." ++ showN d1 ++
        (if d3 =? 0 then (if d2 =? 0 then "" else showN d2)
         else showN d2 ++ showN d3)).

End JS.

Import JS.

(** ** Values shared by the three servers *)

(** The object returned by [detectError]; [isError] is the constant [true]. *)
Record DetectedError : Type := mkDetected {
  isError : bool;
  errorType : string;
  message : string
}.

(** The value a tool handler returns: [{ content: [{ type: "text", text }],
    isError }], where an absent [isError] reads as [false]. *)
Module Tool.
Record Result : Type := mkResult {
  text : string;
  isError : bool
}.
Definition ok (t : string) : Result := mkResult t false.
Definition failed (t : string) : Result := mkResult t true.
End Tool.

(** ** The bounded process executors: state and callbacks *)

(** A [setTimeout] handle: [Unset] before the call that creates it, [Armed]
    while pending, [Fired] once its callback has run, [Cleared] after
    [clearTimeout]. *)
Inductive TimerState : Type := Unset | Armed | Fired | Cleared.

Inductive Signal : Type := SIGTERM | SIGKILL.

(** The value the promise is resolved with: [{ stdout, stderr, exitCode }]. *)
Record ProcessOutcome : Type := mkOutcome {
  stdout : string;
  stderr : string;
  exitCode : option Z
}.

(** How the promise returned by an executor is settled; a rejection carries
    the [message] of the [Error]. *)
Inductive Settlement : Type :=
| Resolved (o : ProcessOutcome)
| Rejected (msg : string).

(** What the child process and the timers deliver to the callbacks, and the
    exit of the process.  [ProcExit] is the [exit] event of the child: the
    process has ended and its handle is gone, while its streams may still be
    open, so that [close] comes later; the executors register no listener for
    it. *)
Inductive ProcEvent : Type :=
| StdoutData (data : string)
| StderrData (data : string)
| TimerFires
| KillTimerFires
| Close (code : option Z)
| SpawnError (msg : string)
| ProcExit.

(** The variables captured by the callbacks of one run. *)
Record Run : Type := mkRun {
  out : string;
  err : string;
  killed : bool;
  timer : TimerState;
  killTimer : TimerState;
  exited : bool;
  procKilled : bool;
  signals : list Signal;
  promise : option Settlement
}.

Module Exec.

Definition start : Run :=
  mkRun "" "" false Armed Unset false false [] None.

(** [clearTimeout]: cancels a pending timer, and is a no-op on anything else
    (a timer that already fired, or [undefined]). *)
Definition clearTimeout (t : TimerState) : TimerState :=
  match t with Armed => Cleared | _ => t end.

(** [proc.kill(sig)]: on a process that has not exited it delivers the
    signal and sets [proc.killed]; once the process has exited (its [exit]
    event, or the [close] that follows it) the call returns false, nothing
    is delivered and [proc.killed] stays as it is. *)
Definition kill (sig : Signal) (r : Run) : Run :=
  if exited r then r
  else mkRun (out r) (err r) (killed r) (timer r) (killTimer r) (exited r)
             true (signals r ++ [sig]) (promise r).

(** [resolve] and [reject]: only the first settlement of a promise counts. *)
Definition settle (s : Settlement) (r : Run) : Run :=
  match promise r with
  | Some _ => r
  | None => mkRun (out r) (err r) (killed r) (timer r) (killTimer r) (exited r)
                  (procKilled r) (signals r) (Some s)
  end.

Definition setOut (s : string) (r : Run) : Run :=
  mkRun s (err r) (killed r) (timer r) (killTimer r) (exited r)
        (procKilled r) (signals r) (promise r).

Definition setErr (s : string) (r : Run) : Run :=
  mkRun (out r) s (killed r) (timer r) (killTimer r) (exited r)
        (procKilled r) (signals r) (promise r).

Definition setKilled (r : Run) : Run :=
  mkRun (out r) (err r) true (timer r) (killTimer r) (exited r)
        (procKilled r) (signals r) (promise r).

Definition setTimer (t : TimerState) (r : Run) : Run :=
  mkRun (out r) (err r) (killed r) t (killTimer r) (exited r)
        (procKilled r) (signals r) (promise r).

Definition setKillTimer (t : TimerState) (r : Run) : Run :=
  mkRun (out r) (err r) (killed r) (timer r) t (exited r)
        (procKilled r) (signals r) (promise r).

Definition setExited (r : Run) : Run :=
  mkRun (out r) (err r) (killed r) (timer r) (killTimer r) true
        (procKilled r) (signals r) (promise r).

(** The callback of the outer [setTimeout], shared by the three servers:
    [killed = true; proc.kill("SIGTERM"); setTimeout(..., 5000)]. *)
Definition onTimeout (r : Run) : Run :=
  setKillTimer Armed (kill SIGTERM (setKilled (setTimer Fired r))).

(** The callback of the inner [setTimeout]:
    [if (!proc.killed) proc.kill("SIGKILL")]. *)
Definition onKillTimeout (r : Run) : Run :=
  let r := setKillTimer Fired r in
  if procKilled r then r else kill SIGKILL r.

(** The chunks a trace writes to each stream, concatenated. *)
Fixpoint outOf (tr : list ProcEvent) : string :=
  match tr with
  | [] => ""
  | StdoutData d :: tr' => d ++ outOf tr'
  | _ :: tr' => outOf tr'
  end.

Fixpoint errOf (tr : list ProcEvent) : string :=
  match tr with
  | [] => ""
  | StderrData d :: tr' => d ++ errOf tr'
  | _ :: tr' => errOf tr'
  end.

(** Traces in which the process only writes. *)
Definition isData (e : ProcEvent) : bool :=
  match e with StdoutData _ | StderrData _ => true | _ => false end.

(** Traces in which the process neither closes nor fails to spawn. *)
Definition isAlive (e : ProcEvent) : bool :=
  match e with Close _ | SpawnError _ => false | _ => true end.

End Exec.

Import Exec.

(** ** servers/mcp-openai/server.js *)

Module OpenAI.

(** The regular expression [/try again at (.+?)[\.\n]/] applied with
    [output.match]: [lazyRest] extends the lazy group one character at a
    time until the next character is a dot or a line feed; the dot of the
    group does not match a line terminator. *)
Fixpoint lazyRest (s : string) : option string :=
  match s with
  | EmptyString => None
  | String c s' =>
      if Ascii.eqb c "."%char || Ascii.eqb c LF then Some EmptyString
      else if Ascii.eqb c CR then None
      else option_map (String c) (lazyRest s')
  end.

Definition matchAt (s : string) : option string :=
  if startsWith "try again at " s then
    match drop 13 s with
    | EmptyString => None
    | String c s' =>
        if Ascii.eqb c LF || Ascii.eqb c CR then None
        else option_map (String c) (lazyRest s')
    end
  else None.

Fixpoint matchResetDate (output : string) : option string :=
  match matchAt output with
  | Some d => Some d
  | None =>
      match output with
      | EmptyString => None
      | String _ s' => matchResetDate s'
      end
  end.

Definition usageLimit (combined : string) : bool :=
  includes "usage limit" combined || includes "hit your usage limit" combined.

Definition notSupported (combined : string) : bool :=
  includes "not supported when using codex with a chatgpt account" combined.

Definition authExpired (combined : string) : bool :=
  includes "auth" combined && (includes "expired" combined || includes "login" combined).

Definition detectError (output : string) : option DetectedError :=
  let combined := toLowerCase output in
  if usageLimit combined then
    let resetDate :=
      match matchResetDate output with Some d => d | None => "unknown" end in
    Some (mkDetected true "QUOTA_EXCEEDED"
            ("Codex usage limit reached. Credits reset at: " ++ resetDate ++
             ". Use a fallback provider."))
  else if notSupported combined then
    Some (mkDetected true "MODEL_NOT_SUPPORTED"
            "This model is not available with ChatGPT Plus. Use the default model.")
  else if authExpired combined then
    Some (mkDetected true "AUTH_EXPIRED"
            "Codex auth token expired. Run 'codex login' to re-authenticate.")
  else None.

(** The loop of [extractResponse] over the lines of stdout, with its
    [inResponse] flag: a line that trims to [codex] opens the response, a
    line starting with [tokens used] ends it. *)
Fixpoint responseLines (inResponse : bool) (lines : list string) : list string :=
  match lines with
  | [] => []
  | line :: rest =>
      if String.eqb (trim line) "codex" then responseLines true rest
      else if inResponse && startsWith "tokens used" line then []
      else if inResponse then line :: responseLines inResponse rest
      else responseLines inResponse rest
  end.

Definition extractResponse (stdout outputFileContent : string) : string :=
  if truthy outputFileContent && truthy (trim outputFileContent) then
    trim outputFileContent
  else
    match responseLines false (splitLines stdout) with
    | [] => trim stdout
    | response => trim (joinLines response)
    end.

Definition timeoutMessage (timeoutMs : N) (r : Run) : string :=
  "Process killed after " ++ showSeconds timeoutMs ++ "s timeout. Partial output: " ++
  sliceLast 200 (out r ++ err r).

Definition onClose (timeoutMs : N) (code : option Z) (r : Run) : Run :=
  let r := setTimer (clearTimeout (timer r)) (setExited r) in
  if killed r then settle (Rejected (timeoutMessage timeoutMs r)) r
  else settle (Resolved (mkOutcome (out r) (err r) code)) r.

Definition onError (msg : string) (r : Run) : Run :=
  settle (Rejected msg) (setTimer (clearTimeout (timer r)) r).

Definition step (timeoutMs : N) (r : Run) (e : ProcEvent) : Run :=
  match e with
  | StdoutData data => setOut (out r ++ data) r
  | StderrData data => setErr (err r ++ data) r
  | TimerFires => match timer r with Armed => onTimeout r | _ => r end
  | KillTimerFires => match killTimer r with Armed => onKillTimeout r | _ => r end
  | Close code => onClose timeoutMs code r
  | SpawnError msg => onError msg r
  | ProcExit => setExited r
  end.

Definition runCodex (timeoutMs : N) (trace : list ProcEvent) : Run :=
  fold_left (step timeoutMs) trace start.

(** [openai_chat]; [outputFile] is what [readFile(outputFile)] finds after
    the run, [None] when the read throws. *)
Definition openai_chat (timeout : N) (trace : list ProcEvent)
    (outputFile : option string) : option Tool.Result :=
  let timeoutMs := timeout * 1000 in
  match promise (runCodex timeoutMs trace) with
  | None => None
  | Some (Resolved o) =>
      let combined := stdout o ++ stderr o in
      match detectError combined with
      | Some error => Some (Tool.failed (message error))
      | None =>
          let outputFileContent :=
            match outputFile with Some c => c | None => "" end in
          let response := extractResponse (stdout o) outputFileContent in
          if negb (truthy response) then
            Some (Tool.failed ("No response from Codex. Exit code: " ++
                               showExit (exitCode o) ++ ". Output: " ++
                               sliceLast 300 combined))
          else Some (Tool.ok response)
      end
  | Some (Rejected msg) =>
      match detectError msg with
      | Some knownError => Some (Tool.failed (message knownError))
      | None => Some (Tool.failed ("Codex error: " ++ msg))
      end
  end.

(** [openai_review] *)
Definition openai_review (timeout : N) (trace : list ProcEvent) : option Tool.Result :=
  let timeoutMs := timeout * 1000 in
  match promise (runCodex timeoutMs trace) with
  | None => None
  | Some (Resolved o) =>
      let combined := stdout o ++ stderr o in
      match detectError combined with
      | Some error => Some (Tool.failed (message error))
      | None =>
          let response :=
            if truthy (trim combined) then trim combined else "No review output" in
          Some (Tool.ok response)
      end
  | Some (Rejected msg) =>
      match detectError msg with
      | Some knownError => Some (Tool.failed (message knownError))
      | None => Some (Tool.failed ("Codex review error: " ++ msg))
      end
  end.

End OpenAI.

(** ** servers/mcp-qwen/server.js *)

Module Qwen.

Definition quota (text : string) : bool :=
  includes "quota" text || includes "rate limit" text || includes "insufficient_quota" text.

Definition auth (text : string) : bool :=
  includes "authentication" text || includes "invalid api key" text ||
  includes "unauthorized" text.

Definition modelNotFound (text : string) : bool :=
  includes "model not found" text || includes "model_not_found" text.

Definition detectError (output : string) : option DetectedError :=
  let text := toLowerCase output in
  if quota text then
    Some (mkDetected true "QUOTA_EXCEEDED"
            "Qwen API quota exceeded. Check your DashScope account limits.")
  else if auth text then
    Some (mkDetected true "AUTH_ERROR"
            "Qwen authentication failed. Run 'qwen login' or set DASHSCOPE_API_KEY env var.")
  else if modelNotFound text then
    Some (mkDetected true "MODEL_NOT_FOUND"
            "Qwen model not found. Available models: qwen-turbo, qwen-plus, qwen-long.")
  else None.

Definition timeoutMessage (timeoutMs : N) (r : Run) : string :=
  "Qwen killed after " ++ showSeconds timeoutMs ++ "s timeout. Partial: " ++
  sliceLast 200 (out r).

Definition onClose (timeoutMs : N) (code : option Z) (r : Run) : Run :=
  let r := setTimer (clearTimeout (timer r)) (setExited r) in
  if killed r then settle (Rejected (timeoutMessage timeoutMs r)) r
  else settle (Resolved (mkOutcome (out r) (err r) code)) r.

Definition onError (msg : string) (r : Run) : Run :=
  settle (Rejected msg) (setTimer (clearTimeout (timer r)) r).

Definition step (timeoutMs : N) (r : Run) (e : ProcEvent) : Run :=
  match e with
  | StdoutData data => setOut (out r ++ data) r
  | StderrData data => setErr (err r ++ data) r
  | TimerFires => match timer r with Armed => onTimeout r | _ => r end
  | KillTimerFires => match killTimer r with Armed => onKillTimeout r | _ => r end
  | Close code => onClose timeoutMs code r
  | SpawnError msg => onError msg r
  | ProcExit => setExited r
  end.

Definition runQwen (timeoutMs : N) (trace : list ProcEvent) : Run :=
  fold_left (step timeoutMs) trace start.

(** [qwen_chat] *)
Definition qwen_chat (timeout : N) (trace : list ProcEvent) : option Tool.Result :=
  let timeoutMs := timeout * 1000 in
  match promise (runQwen timeoutMs trace) with
  | None => None
  | Some (Resolved o) =>
      let combined := stdout o ++ stderr o in
      match detectError combined with
      | Some error => Some (Tool.failed (message error))
      | None =>
          let response := trim (stdout o) in
          if negb (truthy response) then
            Some (Tool.failed ("No response from Qwen. Exit: " ++
                               showExit (exitCode o) ++ ". Stderr: " ++
                               sliceLast 300 (stderr o)))
          else Some (Tool.ok response)
      end
  | Some (Rejected msg) =>
      match detectError msg with
      | Some knownError => Some (Tool.failed (message knownError))
      | None => Some (Tool.failed ("Qwen error: " ++ msg))
      end
  end.

End Qwen.

(** ** The Gemini server *)

Module Gemini.

Definition quota (text : string) : bool :=
  includes "quota" text || includes "rate limit" text || includes "resource_exhausted" text.

Definition auth (text : string) : bool :=
  includes "authentication" text || includes "not authenticated" text ||
  includes "login" text.

Definition detectError (output : string) : option DetectedError :=
  let text := toLowerCase output in
  if quota text then
    Some (mkDetected true "QUOTA_EXCEEDED"
            "Gemini daily quota exceeded. Free tier: 1000 req/day. Try again tomorrow or use a fallback provider.")
  else if auth text then
    Some (mkDetected true "AUTH_REQUIRED"
            "Gemini not authenticated. Run 'gemini' in terminal to login via Google account.")
  else None.

Definition MAX_BUFFER : N := 10 * 1024 * 1024.

Definition timeoutMessage (timeoutMs : N) (r : Run) : string :=
  "Gemini killed after " ++ showSeconds timeoutMs ++ "s timeout. Partial: " ++
  sliceLast 200 (out r).

(** [stdout += data.toString(); if (stdout.length > MAX_BUFFER) { killed = true; proc.kill("SIGTERM"); }] *)
Definition onStdout (data : string) (r : Run) : Run :=
  let r := setOut (out r ++ data) r in
  if MAX_BUFFER <? strlen (out r) then kill SIGTERM (setKilled r) else r.

Definition onStderr (data : string) (r : Run) : Run :=
  let r := setErr (err r ++ data) r in
  if MAX_BUFFER <? strlen (err r) then kill SIGTERM (setKilled r) else r.

Definition onClose (timeoutMs : N) (code : option Z) (r : Run) : Run :=
  let r := setTimer (clearTimeout (timer r)) (setExited r) in
  let r := setKillTimer (clearTimeout (killTimer r)) r in
  if killed r then settle (Rejected (timeoutMessage timeoutMs r)) r
  else settle (Resolved (mkOutcome (out r) (err r) code)) r.

Definition onError (msg : string) (r : Run) : Run :=
  let r := setTimer (clearTimeout (timer r)) r in
  let r := setKillTimer (clearTimeout (killTimer r)) r in
  settle (Rejected msg) r.

Definition step (timeoutMs : N) (r : Run) (e : ProcEvent) : Run :=
  match e with
  | StdoutData data => onStdout data r
  | StderrData data => onStderr data r
  | TimerFires => match timer r with Armed => onTimeout r | _ => r end
  | KillTimerFires => match killTimer r with Armed => onKillTimeout r | _ => r end
  | Close code => onClose timeoutMs code r
  | SpawnError msg => onError msg r
  | ProcExit => setExited r
  end.

Definition runGemini (timeoutMs : N) (trace : list ProcEvent) : Run :=
  fold_left (step timeoutMs) trace start.

(** The body shared by [gemini_chat] and [gemini_analyze], which differ in
    the default timeout and in the prefix of the last error text. *)
Definition gemini_tool (errorPrefix : string) (timeout : N)
    (trace : list ProcEvent) : option Tool.Result :=
  let timeoutMs := timeout * 1000 in
  match promise (runGemini timeoutMs trace) with
  | None => None
  | Some (Resolved o) =>
      let combined := stdout o ++ stderr o in
      match detectError combined with
      | Some error => Some (Tool.failed (message error))
      | None =>
          let response := trim (stdout o) in
          if negb (truthy response) then
            Some (Tool.failed ("No response from Gemini. Exit: " ++
                               showExit (exitCode o) ++ ". Stderr: " ++
                               sliceLast 300 (stderr o)))
          else Some (Tool.ok response)
      end
  | Some (Rejected msg) =>
      match detectError msg with
      | Some knownError => Some (Tool.failed (message knownError))
      | None => Some (Tool.failed (errorPrefix ++ msg))
      end
  end.

Definition gemini_chat : N -> list ProcEvent -> option Tool.Result :=
  gemini_tool "Gemini error: ".

Definition gemini_analyze : N -> list ProcEvent -> option Tool.Result :=
  gemini_tool "Gemini analyze error: ".

End Gemini.

(** ** test/smoke-test.mjs: reading the server's stdout *)

Module SmokeTest.

Section Reader.

(** The values [JSON.parse] returns, and [JSON.parse] itself, [None] when it
    throws. *)
Variable Json : Type.
Variable parse : string -> option Json.

(** The variables [stdout] and [responses] of [testServer]. *)
Record Reader : Type := mkReader {
  stdout : string;
  responses : list Json
}.

Definition start : Reader := mkReader "" [].

(** [for (const line of lines) { if (line.trim()) { try { responses.push(JSON.parse(line)); } catch {} } }] *)
Fixpoint pushLines (lines : list string) (responses : list Json) : list Json :=
  match lines with
  | [] => responses
  | line :: rest =>
      pushLines rest
        (if truthy (trim line) then
           match parse line with
           | Some r => (responses ++ [r])%list
           | None => responses
           end
         else responses)
  end.

(** The [data] listener of the server's stdout:
    [stdout += data.toString(); const lines = stdout.split("\n"); stdout = lines.pop();]
    followed by the loop over the remaining lines. *)
Definition onData (r : Reader) (data : string) : Reader :=
  let lines := splitLines (stdout r ++ data) in
  mkReader (last lines "") (pushLines (removelast lines) (responses r)).

Definition read (chunks : list string) : Reader := fold_left onData chunks start.

End Reader.

Arguments stdout {Json} _.
Arguments responses {Json} _.
Arguments start {Json}.
Arguments pushLines {Json} _ _ _.
Arguments onData {Json} _ _ _.
Arguments read {Json} _ _.

End SmokeTest.

(** ** The fallback chain of the Concilium skill *)

Module Chain.

(** Modelled from the spec: the kinds of a classified error, as the data
    model lists them (the servers' own [errorType] strings are in
    [detectError] above). *)
Inductive ErrorKind : Type :=
| QUOTA_EXCEEDED | AUTH_REQUIRED | MODEL_UNSUPPORTED | MODEL_NOT_FOUND
| TIMEOUT | EMPTY_RESPONSE | UNKNOWN.

(** Modelled from the spec: [ClassifiedError], [{kind, message}]. *)
Record ClassifiedError : Type := mkError {
  kind : ErrorKind;
  message : string
}.

(** Modelled from the spec: [InvocationResult], the tagged union returned by
    an adapter call. *)
Inductive InvocationResult : Type :=
| Success (text : string)
| Failure (e : ClassifiedError).

(** Modelled from the spec: [ChainAttempt], one entry of the attempt log. *)
Record ChainAttempt : Type := mkAttempt {
  agentName : string;
  result : InvocationResult;
  elapsedMs : N
}.

(** Modelled from the spec: the states of a chain walk. *)
Inductive ChainState : Type :=
| PENDING
| TRYING (i : nat)
| SUCCEEDED
| EXHAUSTED.

(** Modelled from the spec: a walk in progress, its state, the attempt log so
    far and the terminal result once there is one. *)
Record Walk : Type := mkWalk {
  state : ChainState;
  log : list ChainAttempt;
  terminal : option InvocationResult
}.

Section Orchestrator.

Variable Request : Type.

(** Modelled from the spec: one member of a chain, its name and what
    invoking it on a request yields, the result and the time the attempt
    took. *)
Record Adapter : Type := mkAdapter {
  name : string;
  invoke : Request -> InvocationResult * N
}.

Definition FallbackChain : Type := list Adapter.

(** Modelled from the spec: the log entry of invoking a member. *)
Definition attempt (request : Request) (a : Adapter) : ChainAttempt :=
  mkAttempt (name a) (fst (invoke a request)) (snd (invoke a request)).

(** Modelled from the spec: the chain walk itself.  The repository holds the
    fallback order only as the protocol text of the Concilium skill
    ("OpenAI -> on QUOTA/error -> Qwen -> DeepSeek", "switch to fallback
    immediately, do NOT retry"), which the orchestrating agent follows; no
    source file walks a chain.  This is the transition rule of the
    specification's state machine: [TRYING i] invokes member [i] and appends
    the attempt; a [Success] stops the walk in [SUCCEEDED]; a [Failure] moves
    to [TRYING (i+1)] when [i+1 < length], and to [EXHAUSTED] otherwise. *)
Definition transition (chain : FallbackChain) (request : Request) (w : Walk) : Walk :=
  match state w with
  | PENDING => mkWalk (TRYING 0) (log w) (terminal w)
  | TRYING i =>
      match nth_error chain i with
      | None => mkWalk EXHAUSTED (log w) (terminal w)
      | Some a =>
          let entry := attempt request a in
          match result entry with
          | Success _ =>
              mkWalk SUCCEEDED (log w ++ [entry]) (Some (result entry))
          | Failure _ =>
              if (S i <? List.length chain)%nat
              then mkWalk (TRYING (S i)) (log w ++ [entry]) (terminal w)
              else mkWalk EXHAUSTED (log w ++ [entry]) (Some (result entry))
          end
      end
  | SUCCEEDED | EXHAUSTED => w
  end.

Definition pending : Walk := mkWalk PENDING [] None.

(** Modelled from the spec: a chain walk, as [fuel] transitions from
    [PENDING]; [walk] gives it one transition to leave [PENDING] and one per
    member. *)
Definition walkFor (fuel : nat) (chain : FallbackChain) (request : Request) : Walk :=
  Nat.iter fuel (transition chain request) pending.

Definition walk (chain : FallbackChain) (request : Request) : Walk :=
  walkFor (S (List.length chain)) chain request.

(** A member fails on a request when invoking it yields a [Failure]. *)
Definition failsOn (request : Request) (a : Adapter) : Prop :=
  exists e, fst (invoke a request) = Failure e.

End Orchestrator.

Arguments name {Request} _.
Arguments invoke {Request} _ _.
Arguments attempt {Request} _ _.
Arguments transition {Request} _ _ _.
Arguments walkFor {Request} _ _ _.
Arguments walk {Request} _ _.
Arguments failsOn {Request} _ _.

End Chain.

(** ** Vocabulary of the statements below *)

(** The kinds of a classified error in the specification's data model, by
    name. *)
Definition taxonomy : list string :=
  ["QUOTA_EXCEEDED"; "AUTH_REQUIRED"; "MODEL_UNSUPPORTED"; "MODEL_NOT_FOUND";
   "TIMEOUT"; "EMPTY_RESPONSE"; "UNKNOWN"].

(** The [errorType] of what a classifier returns, [None] for [null]. *)
Definition kindOf (r : option DetectedError) : option string :=
  option_map errorType r.


(** A text without a line feed. *)
Fixpoint noLF (s : string) : bool :=
  match s with
  | EmptyString => true
  | String c s' => negb (Ascii.eqb c LF) && noLF s'
  end.

(** A text without a line terminator, line feed or carriage return. *)
Fixpoint oneLine (s : string) : bool :=
  match s with
  | EmptyString => true
  | String c s' => negb (Ascii.eqb c LF) && negb (Ascii.eqb c CR) && oneLine s'
  end.

(** The chunks of a stream, concatenated. *)
Definition joinChunks (chunks : list string) : string :=
  fold_right append "" chunks.

(** The events that end a run for the executor: [close] and [error] (not the
    [exit] of the process, which no listener observes). *)
Definition isExit (e : ProcEvent) : bool := negb (isAlive e).

(** Whether an [await] has returned. *)
Definition returned {A : Type} (o : option A) : bool :=
  match o with Some _ => true | None => false end.

(** What the callbacks maintain about the escalation timer: while it is
    armed, either [proc.killed] is set or the process has exited. *)
Definition escalation (r : Run) : Prop :=
  killTimer r = Armed -> procKilled r = true \/ exited r = true.

(** At most one signal has been delivered, a SIGTERM by the timeout
    callback. *)
Definition oneSigterm (r : Run) : Prop :=
  signals r = [] \/ (signals r = [SIGTERM] /\ timer r <> Armed).

(** The two kinds of line [extractResponse] looks for in a transcript: the
    line that trims to [codex], and the line that starts with [tokens used]. *)
Definition isMarker (line : string) : bool := String.eqb (trim line) "codex".
Definition isFooter (line : string) : bool := startsWith "tokens used" line.

(** The event of the main timer. *)
Definition isTimerFires (e : ProcEvent) : bool :=
  match e with TimerFires => true | _ => false end.

(** * Properties *)

(** ** Strings *)

Lemma append_assoc (a b c : string) : (a ++ b) ++ c = a ++ (b ++ c).
Proof.
  induction a as [|x a IH]; simpl; [reflexivity|now rewrite IH].
Qed.

Lemma append_nil_r (a : string) : a ++ "" = a.
Proof.
  induction a as [|x a IH]; simpl; [reflexivity|now rewrite IH].
Qed.

Lemma strlen_append (a b : string) : strlen (a ++ b) = strlen a + strlen b.
Proof.
  induction a as [|x a IH]; simpl; [reflexivity|rewrite IH; lia].
Qed.

Lemma outOf_app (tr1 tr2 : list ProcEvent) : outOf (tr1 ++ tr2) = outOf tr1 ++ outOf tr2.
Proof.
  induction tr1 as [|e tr1 IH]; simpl; [reflexivity|].
  destruct e; simpl; try assumption. now rewrite IH, append_assoc.
Qed.

Lemma errOf_app (tr1 tr2 : list ProcEvent) : errOf (tr1 ++ tr2) = errOf tr1 ++ errOf tr2.
Proof.
  induction tr1 as [|e tr1 IH]; simpl; [reflexivity|].
  destruct e; simpl; try assumption. now rewrite IH, append_assoc.
Qed.

Lemma toLowerCase_idempotent (s : string) : toLowerCase (toLowerCase s) = toLowerCase s.
Proof.
  induction s as [|c s IH]; simpl; [reflexivity|].
  rewrite IH. f_equal.
  destruct c as [[] [] [] [] [] [] [] []]; reflexivity.
Qed.

(** ** Executor runs *)

(** Splitting a run at an event. *)
Lemma fold_left_at {A B} (f : A -> B -> A) (pre : list B) (e : B) (rest : list B) (a : A) :
  fold_left f (pre ++ e :: rest) a = fold_left f rest (f (fold_left f pre a) e).
Proof. now rewrite fold_left_app. Qed.

Ltac split_run := rewrite ?fold_left_at.

Section RunInvariants.

Variable step : Run -> ProcEvent -> Run.

(** What the three [step] functions have in common, as far as the
    invariants below need it. *)
Hypothesis step_out : forall r e, out (step r e) = out r ++ outOf [e].
Hypothesis step_err : forall r e, err (step r e) = err r ++ errOf [e].
Hypothesis step_alive : forall r e, isAlive e = true ->
  promise (step r e) = promise r.
Hypothesis step_settled : forall r e s, promise r = Some s -> promise (step r e) = Some s.
Hypothesis step_killed : forall r e, killed r = true -> killed (step r e) = true.
Hypothesis step_signals : forall r e s, In s (signals r) -> In s (signals (step r e)).

Lemma run_out tr : forall r, out (fold_left step tr r) = out r ++ outOf tr.
Proof.
  induction tr as [|e tr IH]; intros r; simpl fold_left.
  - simpl. now rewrite append_nil_r.
  - rewrite IH, step_out. change (e :: tr) with (([e] ++ tr)%list).
    now rewrite outOf_app, append_assoc.
Qed.

Lemma run_err tr : forall r, err (fold_left step tr r) = err r ++ errOf tr.
Proof.
  induction tr as [|e tr IH]; intros r; simpl fold_left.
  - simpl. now rewrite append_nil_r.
  - rewrite IH, step_err. change (e :: tr) with (([e] ++ tr)%list).
    now rewrite errOf_app, append_assoc.
Qed.

Lemma run_alive tr : forall r, forallb isAlive tr = true ->
  promise (fold_left step tr r) = promise r.
Proof.
  induction tr as [|e tr IH]; intros r H; simpl in *; [reflexivity|].
  apply andb_prop in H. destruct H as [He Htr].
  rewrite (IH (step r e) Htr). now apply step_alive.
Qed.

Lemma run_settled tr : forall r s, promise r = Some s ->
  promise (fold_left step tr r) = Some s.
Proof.
  induction tr as [|e tr IH]; intros r s H; simpl; [assumption|].
  apply IH. now apply step_settled.
Qed.



End RunInvariants.

(** The three [step] functions meet the hypotheses of [RunInvariants]. *)

Ltac step_facts :=
  intros;
  match goal with
  | r : Run, e : ProcEvent |- _ =>
      destruct e; destruct r as [o er k tm kt ex pk sg pr];
      cbv [Qwen.step OpenAI.step Gemini.step Qwen.onClose OpenAI.onClose Gemini.onClose
           Qwen.onError OpenAI.onError Gemini.onError Gemini.onStdout Gemini.onStderr
           onTimeout onKillTimeout kill settle clearTimeout
           setOut setErr setKilled setTimer setKillTimer setExited] in *;
      cbn in *;
      repeat match goal with
             | |- context [match ?x with _ => _ end] => is_var x; destruct x; cbn in *
             | |- context [if ?b then _ else _] => destruct b eqn:?; cbn in *
             | H : ?x = _ |- context [match ?x with _ => _ end] => rewrite H; cbn in *
             end;
      rewrite ?append_nil_r;
      try solve [ reflexivity | discriminate | congruence | split; reflexivity
                | assumption | apply in_or_app; now left ]
  end.

Lemma qwen_step_out t r e : out (Qwen.step t r e) = out r ++ outOf [e].
Proof. step_facts. Qed.

Lemma qwen_step_err t r e : err (Qwen.step t r e) = err r ++ errOf [e].
Proof. step_facts. Qed.

Lemma qwen_step_alive t r e : isAlive e = true ->
  promise (Qwen.step t r e) = promise r.
Proof. step_facts. Qed.

Lemma qwen_step_settled t r e s : promise r = Some s -> promise (Qwen.step t r e) = Some s.
Proof. step_facts. Qed.


Lemma qwen_step_signals t r e s : In s (signals r) -> In s (signals (Qwen.step t r e)).
Proof. step_facts. Qed.

Lemma codex_step_out t r e : out (OpenAI.step t r e) = out r ++ outOf [e].
Proof. step_facts. Qed.

Lemma codex_step_err t r e : err (OpenAI.step t r e) = err r ++ errOf [e].
Proof. step_facts. Qed.

Lemma codex_step_alive t r e : isAlive e = true ->
  promise (OpenAI.step t r e) = promise r.
Proof. step_facts. Qed.

Lemma codex_step_settled t r e s : promise r = Some s -> promise (OpenAI.step t r e) = Some s.
Proof. step_facts. Qed.


Lemma codex_step_signals t r e s : In s (signals r) -> In s (signals (OpenAI.step t r e)).
Proof. step_facts. Qed.

Lemma gemini_step_out t r e : out (Gemini.step t r e) = out r ++ outOf [e].
Proof. step_facts. Qed.

Lemma gemini_step_err t r e : err (Gemini.step t r e) = err r ++ errOf [e].
Proof. step_facts. Qed.

Lemma gemini_step_alive t r e : isAlive e = true ->
  promise (Gemini.step t r e) = promise r.
Proof. step_facts. Qed.

Lemma gemini_step_settled t r e s : promise r = Some s -> promise (Gemini.step t r e) = Some s.
Proof. step_facts. Qed.



(** While the process only writes, the main timer stays as it is; so does
    [killed] in the two servers that put no bound on the buffers. *)

Lemma qwen_step_data t r e : isData e = true ->
  timer (Qwen.step t r e) = timer r /\ killed (Qwen.step t r e) = killed r.
Proof. step_facts. Qed.

Lemma codex_step_data t r e : isData e = true ->
  timer (OpenAI.step t r e) = timer r /\ killed (OpenAI.step t r e) = killed r.
Proof. step_facts. Qed.


Section DataRuns.

Variable step : Run -> ProcEvent -> Run.
Hypothesis step_data : forall r e, isData e = true ->
  timer (step r e) = timer r /\ killed (step r e) = killed r.

Lemma run_data tr : forall r, forallb isData tr = true ->
  timer (fold_left step tr r) = timer r /\ killed (fold_left step tr r) = killed r.
Proof.
  induction tr as [|e tr IH]; intros r H; simpl in *; [now split|].
  apply andb_prop in H. destruct H as [He Htr].
  destruct (IH (step r e) Htr) as [-> ->]. now apply step_data.
Qed.

End DataRuns.

Lemma isData_isAlive tr : forallb isData tr = true -> forallb isAlive tr = true.
Proof.
  induction tr as [|e tr IH]; simpl; [reflexivity|].
  intros H. apply andb_prop in H. destruct H as [He Htr].
  rewrite (IH Htr). now destruct e.
Qed.




(** Within the bound, the Gemini executor does not mark the run killed. *)
Lemma gemini_run_within t tr : forall r, forallb isData tr = true ->
  strlen (out r ++ outOf tr) <= Gemini.MAX_BUFFER ->
  strlen (err r ++ errOf tr) <= Gemini.MAX_BUFFER ->
  killed (fold_left (Gemini.step t) tr r) = killed r.
Proof.
  induction tr as [|e tr IH]; intros r H Ho He; simpl in *; [reflexivity|].
  apply andb_prop in H. destruct H as [Hd Htr].
  destruct e; try discriminate; simpl in Ho, He.
  - rewrite IH; trivial.
    + unfold Gemini.step, Gemini.onStdout. cbn.
      rewrite !strlen_append in Ho. rewrite strlen_append.
      match goal with |- context [?a <? ?b] => destruct (N.ltb_spec a b) end;
        [unfold Gemini.MAX_BUFFER in *; lia|reflexivity].
    + rewrite gemini_step_out. simpl. now rewrite append_nil_r, append_assoc.
    + now rewrite gemini_step_err, append_nil_r.
  - rewrite IH; trivial.
    + unfold Gemini.step, Gemini.onStderr. cbn.
      rewrite !strlen_append in He. rewrite strlen_append.
      match goal with |- context [?a <? ?b] => destruct (N.ltb_spec a b) end;
        [unfold Gemini.MAX_BUFFER in *; lia|reflexivity].
    + now rewrite gemini_step_out, append_nil_r.
    + rewrite gemini_step_err. simpl. now rewrite append_nil_r, append_assoc.
Qed.

(** What the [close] listener settles the promise with. *)

Lemma qwen_onClose_promise t code r : promise r = None ->
  promise (Qwen.onClose t code r) =
  Some (if killed r
        then Rejected ("Qwen killed after " ++ showSeconds t ++
                       "s timeout. Partial: " ++ sliceLast 200 (out r))
        else Resolved (mkOutcome (out r) (err r) code)).
Proof.
  destruct r as [o er k tm kt ex pk sg pr]. cbn. intros ->.
  unfold Qwen.onClose. cbn. now destruct k.
Qed.

Lemma codex_onClose_promise t code r : promise r = None ->
  promise (OpenAI.onClose t code r) =
  Some (if killed r
        then Rejected ("Process killed after " ++ showSeconds t ++
                       "s timeout. Partial output: " ++ sliceLast 200 (out r ++ err r))
        else Resolved (mkOutcome (out r) (err r) code)).
Proof.
  destruct r as [o er k tm kt ex pk sg pr]. cbn. intros ->.
  unfold OpenAI.onClose. cbn. now destruct k.
Qed.

Lemma gemini_onClose_promise t code r : promise r = None ->
  promise (Gemini.onClose t code r) =
  Some (if killed r
        then Rejected ("Gemini killed after " ++ showSeconds t ++
                       "s timeout. Partial: " ++ sliceLast 200 (out r))
        else Resolved (mkOutcome (out r) (err r) code)).
Proof.
  destruct r as [o er k tm kt ex pk sg pr]. cbn. intros ->.
  unfold Gemini.onClose. cbn. now destruct k.
Qed.

(** A run that closes while the process has only written resolves with the
    captured streams and the exit code. *)

Lemma runQwen_normal t pre code post : forallb isData pre = true ->
  promise (Qwen.runQwen t (pre ++ Close code :: post)) =
  Some (Resolved (mkOutcome (outOf pre) (errOf pre) code)).
Proof.
  intros Hpre. unfold Qwen.runQwen. split_run.
  apply (run_settled _ (qwen_step_settled t)).
  change (Qwen.step t ?r (Close code)) with (Qwen.onClose t code r).
  pose proof (run_alive _ (qwen_step_alive t) pre start (isData_isAlive _ Hpre)) as Hp.
  destruct (run_data _ (qwen_step_data t) pre start Hpre) as [_ Hk].
  rewrite qwen_onClose_promise by exact Hp. rewrite Hk. cbn.
  now rewrite (run_out _ (qwen_step_out t)), (run_err _ (qwen_step_err t)).
Qed.

Lemma runCodex_normal t pre code post : forallb isData pre = true ->
  promise (OpenAI.runCodex t (pre ++ Close code :: post)) =
  Some (Resolved (mkOutcome (outOf pre) (errOf pre) code)).
Proof.
  intros Hpre. unfold OpenAI.runCodex. split_run.
  apply (run_settled _ (codex_step_settled t)).
  change (OpenAI.step t ?r (Close code)) with (OpenAI.onClose t code r).
  pose proof (run_alive _ (codex_step_alive t) pre start (isData_isAlive _ Hpre)) as Hp.
  destruct (run_data _ (codex_step_data t) pre start Hpre) as [_ Hk].
  rewrite codex_onClose_promise by exact Hp. rewrite Hk. cbn.
  now rewrite (run_out _ (codex_step_out t)), (run_err _ (codex_step_err t)).
Qed.

Lemma runGemini_normal t pre code post : forallb isData pre = true ->
  strlen (outOf pre) <= Gemini.MAX_BUFFER ->
  strlen (errOf pre) <= Gemini.MAX_BUFFER ->
  promise (Gemini.runGemini t (pre ++ Close code :: post)) =
  Some (Resolved (mkOutcome (outOf pre) (errOf pre) code)).
Proof.
  intros Hpre Ho He. unfold Gemini.runGemini. split_run.
  apply (run_settled _ (gemini_step_settled t)).
  change (Gemini.step t ?r (Close code)) with (Gemini.onClose t code r).
  pose proof (run_alive _ (gemini_step_alive t) pre start (isData_isAlive _ Hpre)) as Hp.
  rewrite gemini_onClose_promise by exact Hp.
  rewrite (gemini_run_within t pre start Hpre Ho He). cbn.
  now rewrite (run_out _ (gemini_step_out t)), (run_err _ (gemini_step_err t)).
Qed.


(** A run whose main timer fires before the process closes is rejected, with
    a message that quotes the end of what was captured. *)




(** ** The classifiers *)

(** C6, counterexample: on the text [Unauthorized] the Qwen classifier
    returns an error whose type, [AUTH_ERROR], is none of the seven kinds
    of the specification's taxonomy. *)
Lemma C6_counterexample :
  exists e, Qwen.detectError "Unauthorized" = Some e /\
            errorType e = "AUTH_ERROR" /\ ~ In (errorType e) taxonomy.
Proof.
  eexists. split; [reflexivity|]. split; [reflexivity|].
  cbn. intros H. repeat (destruct H as [H|H]; [discriminate H|]). exact H.
Qed.

(** C6, as amended: for every text each classifier returns either [null] or
    an error object with [isError] set whose [errorType] is one of the
    server's own names: QUOTA_EXCEEDED, MODEL_NOT_SUPPORTED or AUTH_EXPIRED
    for OpenAI; QUOTA_EXCEEDED, AUTH_ERROR or MODEL_NOT_FOUND for Qwen;
    QUOTA_EXCEEDED or AUTH_REQUIRED for Gemini. *)
Theorem C6_error_types (output : string) :
  match OpenAI.detectError output with
  | None => True
  | Some e => isError e = true /\
              In (errorType e) ["QUOTA_EXCEEDED"; "MODEL_NOT_SUPPORTED"; "AUTH_EXPIRED"]
  end /\
  match Qwen.detectError output with
  | None => True
  | Some e => isError e = true /\
              In (errorType e) ["QUOTA_EXCEEDED"; "AUTH_ERROR"; "MODEL_NOT_FOUND"]
  end /\
  match Gemini.detectError output with
  | None => True
  | Some e => isError e = true /\
              In (errorType e) ["QUOTA_EXCEEDED"; "AUTH_REQUIRED"]
  end.
Proof.
  unfold OpenAI.detectError, Qwen.detectError, Gemini.detectError.
  repeat split;
    repeat match goal with
           | |- context [if ?b then _ else _] => destruct b
           end; cbn; auto 6.
Qed.

(** C9: in each classifier the rules are tried in the order of the source
    and the first one that matches decides.  A text that matches a quota
    pattern is QUOTA_EXCEEDED also when it matches an authentication
    pattern (for Qwen and Gemini, for instance, when it contains both
    [rate limit] and [authentication]); a later rule decides only when all
    earlier ones fail; a text that matches no rule gives [null]. *)
Theorem C9_first_matching_rule_wins (output : string) :
  let text := toLowerCase output in
  ((includes "rate limit" text = true -> includes "authentication" text = true ->
    kindOf (Qwen.detectError output) = Some "QUOTA_EXCEEDED") /\
   (Qwen.quota text = true -> kindOf (Qwen.detectError output) = Some "QUOTA_EXCEEDED") /\
   (Qwen.quota text = false -> Qwen.auth text = true ->
    kindOf (Qwen.detectError output) = Some "AUTH_ERROR") /\
   (Qwen.quota text = false -> Qwen.auth text = false -> Qwen.modelNotFound text = true ->
    kindOf (Qwen.detectError output) = Some "MODEL_NOT_FOUND") /\
   (Qwen.quota text = false -> Qwen.auth text = false -> Qwen.modelNotFound text = false ->
    Qwen.detectError output = None)) /\
  ((includes "rate limit" text = true -> includes "authentication" text = true ->
    kindOf (Gemini.detectError output) = Some "QUOTA_EXCEEDED") /\
   (Gemini.quota text = true -> kindOf (Gemini.detectError output) = Some "QUOTA_EXCEEDED") /\
   (Gemini.quota text = false -> Gemini.auth text = true ->
    kindOf (Gemini.detectError output) = Some "AUTH_REQUIRED") /\
   (Gemini.quota text = false -> Gemini.auth text = false ->
    Gemini.detectError output = None)) /\
  ((OpenAI.usageLimit text = true -> OpenAI.authExpired text = true ->
    kindOf (OpenAI.detectError output) = Some "QUOTA_EXCEEDED") /\
   (OpenAI.usageLimit text = true ->
    kindOf (OpenAI.detectError output) = Some "QUOTA_EXCEEDED") /\
   (OpenAI.usageLimit text = false -> OpenAI.notSupported text = true ->
    kindOf (OpenAI.detectError output) = Some "MODEL_NOT_SUPPORTED") /\
   (OpenAI.usageLimit text = false -> OpenAI.notSupported text = false ->
    OpenAI.authExpired text = true ->
    kindOf (OpenAI.detectError output) = Some "AUTH_EXPIRED") /\
   (OpenAI.usageLimit text = false -> OpenAI.notSupported text = false ->
    OpenAI.authExpired text = false ->
    OpenAI.detectError output = None)).
Proof.
  cbv zeta.
  assert (Hq : includes "rate limit" (toLowerCase output) = true ->
               Qwen.quota (toLowerCase output) = true).
  { intros H. unfold Qwen.quota. rewrite H. now rewrite orb_true_r. }
  assert (Hg : includes "rate limit" (toLowerCase output) = true ->
               Gemini.quota (toLowerCase output) = true).
  { intros H. unfold Gemini.quota. rewrite H. now rewrite orb_true_r. }
  unfold kindOf, OpenAI.detectError, Qwen.detectError, Gemini.detectError.
  repeat split; intros;
    repeat match goal with
           | H : includes "rate limit" _ = true |- context [Qwen.quota _] =>
               rewrite (Hq H)
           | H : includes "rate limit" _ = true |- context [Gemini.quota _] =>
               rewrite (Hg H)
           | H : ?p = _ |- context [if ?p then _ else _] => rewrite H
           end; reflexivity.
Qed.

Lemma C9_first_matching_rule_wins_witness :
  kindOf (Qwen.detectError "Rate limit reached, then Authentication failed") =
    Some "QUOTA_EXCEEDED" /\
  kindOf (Gemini.detectError "Rate limit reached, then Authentication failed") =
    Some "QUOTA_EXCEEDED" /\
  kindOf (OpenAI.detectError "Usage limit hit; auth token expired") =
    Some "QUOTA_EXCEEDED" /\
  Qwen.detectError "All good" = None.
Proof.
  split; [|split; [|split]].
  - apply (proj1 (proj1 (C9_first_matching_rule_wins
                           "Rate limit reached, then Authentication failed")));
      reflexivity.
  - apply (proj1 (proj1 (proj2 (C9_first_matching_rule_wins
                                  "Rate limit reached, then Authentication failed"))));
      reflexivity.
  - apply (proj1 (proj2 (proj2 (C9_first_matching_rule_wins
                                  "Usage limit hit; auth token expired"))));
      reflexivity.
  - apply (proj2 (proj2 (proj2 (proj2 (proj1 (C9_first_matching_rule_wins "All good"))))));
      reflexivity.
Defined.

(** C10: each classifier is a function of its input text alone, so two calls
    on the same text return the same value, the same [null] or the same
    error type and message; and which rule matches depends only on the
    lower-cased text, so two texts that differ in letter case only get the
    same [null] or the same error type (for Qwen and Gemini the same whole
    result), and lower-casing a text beforehand changes nothing of that. *)
Lemma detectError_case_insensitive (a b : string) :
  toLowerCase a = toLowerCase b ->
  kindOf (OpenAI.detectError a) = kindOf (OpenAI.detectError b) /\
  Qwen.detectError a = Qwen.detectError b /\
  Gemini.detectError a = Gemini.detectError b.
Proof.
  intros H. unfold kindOf, OpenAI.detectError, Qwen.detectError, Gemini.detectError.
  rewrite H. repeat split.
  repeat match goal with
         | |- context [if ?p then _ else _] => destruct p
         end; reflexivity.
Qed.

Theorem C10_classifier_deterministic (a b : string) :
  (a = b ->
   OpenAI.detectError a = OpenAI.detectError b /\
   Qwen.detectError a = Qwen.detectError b /\
   Gemini.detectError a = Gemini.detectError b) /\
  (toLowerCase a = toLowerCase b ->
   kindOf (OpenAI.detectError a) = kindOf (OpenAI.detectError b) /\
   Qwen.detectError a = Qwen.detectError b /\
   Gemini.detectError a = Gemini.detectError b) /\
  (kindOf (OpenAI.detectError (toLowerCase a)) = kindOf (OpenAI.detectError a) /\
   Qwen.detectError (toLowerCase a) = Qwen.detectError a /\
   Gemini.detectError (toLowerCase a) = Gemini.detectError a).
Proof.
  split; [|split].
  - intros ->. repeat split.
  - apply detectError_case_insensitive.
  - apply detectError_case_insensitive, toLowerCase_idempotent.
Qed.

Lemma C10_classifier_deterministic_witness :
  (OpenAI.detectError "usage limit" = OpenAI.detectError "usage limit" /\
   Qwen.detectError "usage limit" = Qwen.detectError "usage limit" /\
   Gemini.detectError "usage limit" = Gemini.detectError "usage limit") /\
  (kindOf (OpenAI.detectError "HIT YOUR USAGE LIMIT") =
     kindOf (OpenAI.detectError "hit your usage limit") /\
   Qwen.detectError "RATE LIMIT" = Qwen.detectError "rate limit" /\
   Gemini.detectError "RATE LIMIT" = Gemini.detectError "rate limit").
Proof.
  split.
  - apply (proj1 (C10_classifier_deterministic "usage limit" "usage limit")).
    reflexivity.
  - split.
    + apply (proj1 (proj2 (C10_classifier_deterministic
                             "HIT YOUR USAGE LIMIT" "hit your usage limit"))).
      reflexivity.
    + apply (proj1 (proj2 (C10_classifier_deterministic "RATE LIMIT" "rate limit"))).
      reflexivity.
Defined.

(** ** The executors settle their promise *)




(** ** The chat tools *)




(** C7: in the three chat tools the classifier is applied to stdout followed
    by stderr of every run that closed normally, whatever its exit code, and
    before the response is looked at: when it finds an error, the tool
    returns an [isError] result whose text is the classifier's message.  So
    a run that exits with code 0 and prints a proper answer that merely
    mentions a pattern ([rate limit], [quota], or [usage limit] for OpenAI)
    is reported as QUOTA_EXCEEDED and the answer is dropped. *)
Theorem C7_detection_ignores_exit_code (timeout : N) (pre post : list ProcEvent)
    (code : option Z) (outputFile : option string) :
  forallb isData pre = true ->
  ((forall e, Qwen.detectError (outOf pre ++ errOf pre) = Some e ->
      Qwen.qwen_chat timeout (pre ++ Close code :: post) =
        Some (Tool.failed (message e))) /\
   (forall e, strlen (outOf pre) <= Gemini.MAX_BUFFER ->
      strlen (errOf pre) <= Gemini.MAX_BUFFER ->
      Gemini.detectError (outOf pre ++ errOf pre) = Some e ->
      Gemini.gemini_chat timeout (pre ++ Close code :: post) =
        Some (Tool.failed (message e))) /\
   (forall e, OpenAI.detectError (outOf pre ++ errOf pre) = Some e ->
      OpenAI.openai_chat timeout (pre ++ Close code :: post) outputFile =
        Some (Tool.failed (message e)))) /\
  (kindOf (Qwen.detectError "Back off and retry when you hit the rate limit.") =
     Some "QUOTA_EXCEEDED" /\
   Qwen.qwen_chat 120
     [StdoutData "Back off and retry when you hit the rate limit."; Close (Some 0%Z)] =
     Some (Tool.failed "Qwen API quota exceeded. Check your DashScope account limits.") /\
   kindOf (Gemini.detectError "Store the quota per user in Redis.") =
     Some "QUOTA_EXCEEDED" /\
   Gemini.gemini_chat 90 [StdoutData "Store the quota per user in Redis."; Close (Some 0%Z)] =
     Some (Tool.failed
             "Gemini daily quota exceeded. Free tier: 1000 req/day. Try again tomorrow or use a fallback provider.") /\
   kindOf (OpenAI.detectError "Add a usage limit check to the handler.") =
     Some "QUOTA_EXCEEDED" /\
   OpenAI.openai_chat 90 [StdoutData "Add a usage limit check to the handler."; Close (Some 0%Z)]
     (Some "Add a usage limit check to the handler.") =
     Some (Tool.failed
             "Codex usage limit reached. Credits reset at: unknown. Use a fallback provider.")).
Proof.
  intros Hpre. split; [|repeat split].
  unfold Qwen.qwen_chat, Gemini.gemini_chat, Gemini.gemini_tool, OpenAI.openai_chat.
  cbv zeta. split; [|split].
  - intros e He. rewrite runQwen_normal by assumption. cbn [stdout stderr].
    now rewrite He.
  - intros e Ho Her He. rewrite runGemini_normal by assumption. cbn [stdout stderr].
    now rewrite He.
  - intros e He. rewrite runCodex_normal by assumption. cbn [stdout stderr].
    now rewrite He.
Qed.

Lemma C7_detection_ignores_exit_code_witness :
  Qwen.qwen_chat 120 [StdoutData "Our authentication flow "; StdoutData "looks fine.";
                      Close (Some 0%Z)] =
    Some (Tool.failed
            "Qwen authentication failed. Run 'qwen login' or set DASHSCOPE_API_KEY env var.").
Proof.
  apply (proj1 (proj1 (C7_detection_ignores_exit_code 120
                         [StdoutData "Our authentication flow "; StdoutData "looks fine."]
                         [] (Some 0%Z) None eq_refl))
           (mkDetected true "AUTH_ERROR"
              "Qwen authentication failed. Run 'qwen login' or set DASHSCOPE_API_KEY env var.")).
  reflexivity.
Defined.




(** ** The buffer bound of the Gemini executor *)











(** ** Timers at process exit *)

(** The Gemini executor keeps the handle of the escalation timer and clears
    both timers in its [close] and [error] listeners: once the process has
    closed, neither timer is armed, whatever happens next. *)
Lemma gemini_step_released t r e :
  timer r <> Armed -> killTimer r <> Armed ->
  timer (Gemini.step t r e) <> Armed /\ killTimer (Gemini.step t r e) <> Armed.
Proof.
  intros Ht Hk. destruct e; destruct r as [o er k tm kt ex pk sg pr];
    cbv [Gemini.step Gemini.onClose Gemini.onError Gemini.onStdout Gemini.onStderr
         onTimeout onKillTimeout kill settle clearTimeout
         setOut setErr setKilled setTimer setKillTimer setExited] in *;
    cbn in *;
    repeat match goal with
           | |- context [match ?x with _ => _ end] => is_var x; destruct x; cbn in *
           | |- context [if ?b then _ else _] => destruct b eqn:?; cbn in *
           end;
    split; congruence.
Qed.

Lemma gemini_close_releases t code r :
  timer (Gemini.onClose t code r) <> Armed /\ killTimer (Gemini.onClose t code r) <> Armed.
Proof.
  destruct r as [o er k tm kt ex pk sg pr].
  cbv [Gemini.onClose settle clearTimeout setTimer setKillTimer setExited]. cbn.
  destruct k, pr, tm, kt; cbn; split; congruence.
Qed.

Lemma gemini_timers_released t pre code post :
  timer (Gemini.runGemini t (pre ++ Close code :: post)) <> Armed /\
  killTimer (Gemini.runGemini t (pre ++ Close code :: post)) <> Armed.
Proof.
  unfold Gemini.runGemini. rewrite fold_left_at.
  change (Gemini.step t ?r (Close code)) with (Gemini.onClose t code r).
  generalize (gemini_close_releases t code (fold_left (Gemini.step t) pre start)).
  generalize (Gemini.onClose t code (fold_left (Gemini.step t) pre start)).
  induction post as [|e post IH]; intros r [Ht Hk]; cbn [fold_left]; [now split|].
  apply IH. now apply gemini_step_released.
Qed.

(** C3, at the failing input: in [runQwen] and [runCodex] the main timer
    fires and the process then closes.  The [close] listener clears the main
    timer only; the escalation timer created by the timeout callback has no
    handle and stays armed after the process has exited, and its callback
    runs when its five seconds are over.  The same trace leaves the Gemini
    executor with the escalation timer cleared. *)
Theorem C3_escalation_timer_left_armed :
  (exited (Qwen.runQwen 120000 [TimerFires; Close None]) = true /\
   timer (Qwen.runQwen 120000 [TimerFires; Close None]) = Fired /\
   killTimer (Qwen.runQwen 120000 [TimerFires; Close None]) = Armed /\
   killTimer (Qwen.runQwen 120000 [TimerFires; Close None; KillTimerFires]) = Fired) /\
  (exited (OpenAI.runCodex 90000 [TimerFires; Close None]) = true /\
   timer (OpenAI.runCodex 90000 [TimerFires; Close None]) = Fired /\
   killTimer (OpenAI.runCodex 90000 [TimerFires; Close None]) = Armed /\
   killTimer (OpenAI.runCodex 90000 [TimerFires; Close None; KillTimerFires]) = Fired) /\
  (exited (Gemini.runGemini 90000 [TimerFires; Close None]) = true /\
   timer (Gemini.runGemini 90000 [TimerFires; Close None]) = Fired /\
   killTimer (Gemini.runGemini 90000 [TimerFires; Close None]) = Cleared /\
   killTimer (Gemini.runGemini 90000 [TimerFires; Close None; KillTimerFires]) = Cleared).
Proof. repeat split. Qed.

(** ** The fallback chain *)

Section ChainWalk.

Import Chain.

Variable Request : Type.
Variable chain : list (Adapter Request).
Variable request : Request.

Hypothesis all_fail : forall a, In a chain -> failsOn request a.

Lemma firstn_snoc {A} (l : list A) (i : nat) (a : A) :
  nth_error l i = Some a -> firstn (S i) l = (firstn i l ++ [a])%list.
Proof.
  revert i. induction l as [|x l IH]; intros [|i] H; try discriminate.
  - now inversion H.
  - cbn [nth_error] in H. rewrite (firstn_cons (S i)), (firstn_cons i), (IH i H).
    reflexivity.
Qed.

(** While members remain, the walk after [i + 1] transitions is about to try
    member [i] and has logged the failures of the members before it. *)
Lemma walk_trying (i : nat) : (i < List.length chain)%nat ->
  walkFor (S i) chain request =
  mkWalk (TRYING i) (map (attempt request) (firstn i chain)) None.
Proof.
  induction i as [|i IH]; intros Hi; [reflexivity|].
  unfold walkFor in *. rewrite Nat.iter_succ. rewrite IH by lia.
  unfold transition. cbn [state log terminal].
  destruct (nth_error chain i) as [a|] eqn:Ha.
  - destruct (all_fail a (nth_error_In _ _ Ha)) as [e He].
    cbn [attempt result]. rewrite He.
    destruct (Nat.ltb_spec (S i) (List.length chain)); [|lia].
    rewrite (firstn_snoc _ _ _ Ha), map_app. reflexivity.
  - apply nth_error_None in Ha. lia.
Qed.

Lemma walk_exhausted (m : nat) (a : Adapter Request) :
  List.length chain = S m -> nth_error chain m = Some a ->
  walk chain request =
  mkWalk EXHAUSTED (map (attempt request) chain) (Some (fst (invoke a request))).
Proof.
  intros Hlen Ha. unfold walk. rewrite Hlen.
  unfold walkFor. rewrite Nat.iter_succ.
  fold (walkFor (S m) chain request). rewrite walk_trying by lia.
  unfold transition. cbn [state log terminal]. rewrite Ha.
  destruct (all_fail a (nth_error_In _ _ Ha)) as [e He].
  cbn [attempt result]. rewrite He.
  destruct (Nat.ltb_spec (S m) (List.length chain)); [lia|].
  rewrite <- He.
  replace (map (attempt request) (firstn m chain) ++ [attempt request a])%list
    with (map (attempt request) chain); [reflexivity|].
  rewrite <- (firstn_all chain) at 1. rewrite Hlen, (firstn_snoc _ _ _ Ha), map_app.
  reflexivity.
Qed.

Lemma transition_exhausted (w : Walk) :
  state w = EXHAUSTED -> transition chain request w = w.
Proof. intros H. unfold transition. now rewrite H. Qed.

End ChainWalk.

(** C5: when every member of a chain of length [n >= 1] fails on the
    request, the walk ends in [EXHAUSTED]; its attempt log has [n] entries,
    the members of the chain in chain order, each tried once with the
    result it gave; the terminal result is the failure of the last member;
    and further transitions change nothing. *)
Theorem C5_all_members_fail (Request : Type) (chain : list (Chain.Adapter Request))
    (request : Request) (final : Chain.Adapter Request) :
  (forall a, In a chain -> Chain.failsOn request a) ->
  last chain final = final -> In final chain ->
  let w := Chain.walk chain request in
  Chain.state w = Chain.EXHAUSTED /\
  List.length (Chain.log w) = List.length chain /\
  Chain.log w = map (Chain.attempt request) chain /\
  map Chain.agentName (Chain.log w) = map Chain.name chain /\
  Chain.terminal w = Some (fst (Chain.invoke final request)) /\
  (exists e, Chain.terminal w = Some (Chain.Failure e)) /\
  (forall extra, Chain.walkFor (extra + S (List.length chain)) chain request = w).
Proof.
  intros Hfail Hlast Hin.
  assert (Hne : chain <> []) by (intros ->; contradiction).
  destruct (exists_last Hne) as (front & a & ->).
  rewrite last_last in Hlast. subst a.
  assert (Hnth : nth_error (front ++ [final]) (List.length front) = Some final).
  { rewrite nth_error_app2 by lia. now rewrite Nat.sub_diag. }
  assert (Hlen : List.length (front ++ [final]) = S (List.length front)).
  { rewrite length_app. cbn. lia. }
  pose proof (walk_exhausted Request _ request Hfail _ _ Hlen Hnth) as Hw.
  cbv zeta. rewrite Hw. cbn [Chain.state Chain.log Chain.terminal].
  split; [reflexivity|]. split; [now rewrite length_map|]. split; [reflexivity|].
  split; [rewrite map_map; reflexivity|]. split; [reflexivity|].
  split.
  - destruct (Hfail final Hin) as [e He]. exists e. now rewrite He.
  - intros extra. induction extra as [|extra IH].
    + exact Hw.
    + cbn [Nat.add]. unfold Chain.walkFor in *. rewrite Nat.iter_succ, IH.
      now apply transition_exhausted.
Qed.

Lemma C5_all_members_fail_witness :
  let quota := Chain.Failure (Chain.mkError Chain.QUOTA_EXCEEDED "usage limit") in
  let timeout := Chain.Failure (Chain.mkError Chain.TIMEOUT "killed") in
  let openai := Chain.mkAdapter unit "openai_chat" (fun _ => (quota, 900)) in
  let qwen := Chain.mkAdapter unit "qwen_chat" (fun _ => (timeout, 120000)) in
  let w := Chain.walk [openai; qwen] tt in
  Chain.state w = Chain.EXHAUSTED /\
  List.length (Chain.log w) = 2%nat /\
  map Chain.agentName (Chain.log w) = ["openai_chat"; "qwen_chat"] /\
  Chain.terminal w = Some timeout.
Proof.
  cbv zeta.
  pose proof (C5_all_members_fail unit
    [Chain.mkAdapter unit "openai_chat"
       (fun _ => (Chain.Failure (Chain.mkError Chain.QUOTA_EXCEEDED "usage limit"), 900));
     Chain.mkAdapter unit "qwen_chat"
       (fun _ => (Chain.Failure (Chain.mkError Chain.TIMEOUT "killed"), 120000))]
    tt
    (Chain.mkAdapter unit "qwen_chat"
       (fun _ => (Chain.Failure (Chain.mkError Chain.TIMEOUT "killed"), 120000)))) as H.
  cbv zeta in H.
  destruct H as (Hs & Hl & _ & Hn & Ht & _).
  - intros a [<-|[<-|[]]]; eexists; reflexivity.
  - reflexivity.
  - right. now left.
  - repeat split; assumption.
Defined.

(** * Further properties of the servers *)

(** ** A tool call returns exactly when the run ends *)

Lemma qwen_step_exit t r e : isExit e = true -> promise (Qwen.step t r e) <> None.
Proof. unfold isExit. step_facts. Qed.

Lemma codex_step_exit t r e : isExit e = true -> promise (OpenAI.step t r e) <> None.
Proof. unfold isExit. step_facts. Qed.

Lemma gemini_step_exit t r e : isExit e = true -> promise (Gemini.step t r e) <> None.
Proof. unfold isExit. step_facts. Qed.

Section ExitRuns.

Variable step : Run -> ProcEvent -> Run.
Hypothesis step_alive : forall r e, isAlive e = true ->
  promise (step r e) = promise r.
Hypothesis step_settled : forall r e s, promise r = Some s -> promise (step r e) = Some s.
Hypothesis step_exit : forall r e, isExit e = true -> promise (step r e) <> None.

Lemma run_returned tr : forall r, promise r = None ->
  returned (promise (fold_left step tr r)) = existsb isExit tr.
Proof.
  induction tr as [|e tr IH]; intros r Hr; cbn [fold_left existsb].
  - now rewrite Hr.
  - unfold isExit at 1. destruct (isAlive e) eqn:He; cbn [negb orb].
    + apply IH. rewrite (step_alive r e He). exact Hr.
    + destruct (promise (step r e)) as [s|] eqn:Hs.
      * now rewrite (run_settled step step_settled tr _ s Hs).
      * exfalso. apply (step_exit r e); [unfold isExit; now rewrite He|exact Hs].
Qed.

End ExitRuns.

(** X1: each of the five tools returns a result exactly when the trace of
    its run holds a [close] or an [error] event; until then the call is
    pending, and after it the handler has returned a value (it never leaves
    the rejection of the executor unhandled). *)
Theorem X1_tool_returns_iff_exit (timeout : N) (trace : list ProcEvent)
    (outputFile : option string) :
  returned (Qwen.qwen_chat timeout trace) = existsb isExit trace /\
  returned (Gemini.gemini_chat timeout trace) = existsb isExit trace /\
  returned (Gemini.gemini_analyze timeout trace) = existsb isExit trace /\
  returned (OpenAI.openai_chat timeout trace outputFile) = existsb isExit trace /\
  returned (OpenAI.openai_review timeout trace) = existsb isExit trace.
Proof.
  pose proof (run_returned _ (qwen_step_alive (timeout * 1000))
                (qwen_step_settled (timeout * 1000)) (qwen_step_exit (timeout * 1000))
                trace start eq_refl) as Hq.
  pose proof (run_returned _ (gemini_step_alive (timeout * 1000))
                (gemini_step_settled (timeout * 1000)) (gemini_step_exit (timeout * 1000))
                trace start eq_refl) as Hg.
  pose proof (run_returned _ (codex_step_alive (timeout * 1000))
                (codex_step_settled (timeout * 1000)) (codex_step_exit (timeout * 1000))
                trace start eq_refl) as Hc.
  rewrite <- Hq at 1. rewrite <- Hg at 1. rewrite <- Hg at 1.
  rewrite <- Hc at 1. rewrite <- Hc.
  unfold Qwen.qwen_chat, Gemini.gemini_chat, Gemini.gemini_analyze, Gemini.gemini_tool,
    OpenAI.openai_chat, OpenAI.openai_review, Qwen.runQwen, Gemini.runGemini,
    OpenAI.runCodex.
  cbv zeta.
  repeat split;
    repeat match goal with
           | |- context [match ?x with _ => _ end] => destruct x
           end; reflexivity.
Qed.

(** ** Trimming *)

Lemma trimStart_length (s : string) : (String.length (trimStart s) <= String.length s)%nat.
Proof.
  induction s as [|c s IH]; cbn [trimStart String.length]; [lia|].
  destruct (isWhiteSpace c); cbn [String.length]; lia.
Qed.

Lemma trimEnd_idempotent (s : string) : trimEnd (trimEnd s) = trimEnd s.
Proof.
  induction s as [|c s IH]; [reflexivity|].
  cbn [trimEnd]. destruct (trimEnd s) as [|d r] eqn:Hr.
  - destruct (isWhiteSpace c) eqn:Hc; [reflexivity|]. cbn [trimEnd]. now rewrite Hc.
  - change (trimEnd (String c (String d r)))
      with (match trimEnd (String d r) with
            | EmptyString => if isWhiteSpace c then EmptyString else String c EmptyString
            | String x y => String c (String x y)
            end).
    now rewrite IH.
Qed.

Lemma trimStart_idempotent (s : string) : trimStart (trimStart s) = trimStart s.
Proof.
  induction s as [|c s IH]; [reflexivity|].
  cbn [trimStart]. destruct (isWhiteSpace c) eqn:Hc; [exact IH|].
  cbn [trimStart]. now rewrite Hc.
Qed.

Lemma trimStart_trimEnd (t : string) : trimStart t = t -> trimStart (trimEnd t) = trimEnd t.
Proof.
  destruct t as [|c t]; [reflexivity|].
  cbn [trimStart]. destruct (isWhiteSpace c) eqn:Hc.
  - intros H. pose proof (trimStart_length t) as Hlen. rewrite H in Hlen.
    cbn [String.length] in Hlen. lia.
  - intros _. cbn [trimEnd]. destruct (trimEnd t); rewrite ?Hc; cbn [trimStart]; now rewrite Hc.
Qed.

Lemma trim_idempotent (s : string) : trim (trim s) = trim s.
Proof.
  unfold trim.
  rewrite (trimStart_trimEnd (trimStart s) (trimStart_idempotent s)).
  apply trimEnd_idempotent.
Qed.

Lemma truthy_nonempty (s : string) : truthy s = true -> s <> "".
Proof. now destruct s. Qed.

Lemma extractResponse_trimmed (stdout outputFileContent : string) :
  trim (OpenAI.extractResponse stdout outputFileContent) =
  OpenAI.extractResponse stdout outputFileContent.
Proof.
  unfold OpenAI.extractResponse.
  destruct (truthy outputFileContent && truthy (trim outputFileContent));
    [apply trim_idempotent|].
  destruct (OpenAI.responseLines false (splitLines stdout)); apply trim_idempotent.
Qed.

(** ** What a result without [isError] tells *)

(** X2: when a tool returns a result without [isError], the run resolved
    (its main timer had not fired), the classifier found nothing in stdout
    followed by stderr, and the text is not empty and carries no white space
    at either end: it is the trimmed stdout for the Qwen and Gemini tools,
    the extracted response for [openai_chat], and for [openai_review] the
    trimmed stdout+stderr or, when that is empty, [No review output]. *)
Theorem X2_success_is_clean (timeout : N) (trace : list ProcEvent)
    (outputFile : option string) (r : Tool.Result) :
  Tool.isError r = false ->
  (Qwen.qwen_chat timeout trace = Some r ->
   Tool.text r <> "" /\ trim (Tool.text r) = Tool.text r /\
   exists o, promise (Qwen.runQwen (timeout * 1000) trace) = Some (Resolved o) /\
             Qwen.detectError (stdout o ++ stderr o) = None /\
             Tool.text r = trim (stdout o)) /\
  (Gemini.gemini_chat timeout trace = Some r \/ Gemini.gemini_analyze timeout trace = Some r ->
   Tool.text r <> "" /\ trim (Tool.text r) = Tool.text r /\
   exists o, promise (Gemini.runGemini (timeout * 1000) trace) = Some (Resolved o) /\
             Gemini.detectError (stdout o ++ stderr o) = None /\
             Tool.text r = trim (stdout o)) /\
  (OpenAI.openai_chat timeout trace outputFile = Some r ->
   Tool.text r <> "" /\ trim (Tool.text r) = Tool.text r /\
   exists o, promise (OpenAI.runCodex (timeout * 1000) trace) = Some (Resolved o) /\
             OpenAI.detectError (stdout o ++ stderr o) = None /\
             Tool.text r =
               OpenAI.extractResponse (stdout o)
                 match outputFile with Some c => c | None => "" end) /\
  (OpenAI.openai_review timeout trace = Some r ->
   Tool.text r <> "" /\ trim (Tool.text r) = Tool.text r /\
   exists o, promise (OpenAI.runCodex (timeout * 1000) trace) = Some (Resolved o) /\
             OpenAI.detectError (stdout o ++ stderr o) = None /\
             Tool.text r =
               if truthy (trim (stdout o ++ stderr o)) then trim (stdout o ++ stderr o)
               else "No review output").
Proof.
  intros Hok.
  unfold Qwen.qwen_chat, Gemini.gemini_chat, Gemini.gemini_analyze, Gemini.gemini_tool,
    OpenAI.openai_chat, OpenAI.openai_review.
  cbv zeta.
  split; [|split; [|split]].
  - destruct (promise (Qwen.runQwen _ _)) as [[o|msg]|]; [| |discriminate].
    + destruct (Qwen.detectError (stdout o ++ stderr o)) eqn:Hd.
      * intros H. inversion H. subst r. discriminate Hok.
      * destruct (truthy (trim (stdout o))) eqn:Ht; cbn [negb];
          intros H; inversion H; subst r; [|discriminate Hok].
        cbn [Tool.text Tool.ok]. split; [now apply truthy_nonempty|].
        split; [apply trim_idempotent|]. exists o. now repeat split.
    + destruct (Qwen.detectError msg); intros H; inversion H; subst r; discriminate Hok.
  - destruct (promise (Gemini.runGemini _ _)) as [[o|msg]|];
      [| |intros [H|H]; discriminate].
    + destruct (Gemini.detectError (stdout o ++ stderr o)) eqn:Hd.
      * intros [H|H]; inversion H; subst r; discriminate Hok.
      * destruct (truthy (trim (stdout o))) eqn:Ht; cbn [negb];
          intros [H|H]; inversion H; subst r; try discriminate Hok;
          (cbn [Tool.text Tool.ok]; split; [now apply truthy_nonempty|];
           split; [apply trim_idempotent|]; exists o; now repeat split).
    + destruct (Gemini.detectError msg); intros [H|H]; inversion H; subst r;
        discriminate Hok.
  - destruct (promise (OpenAI.runCodex _ _)) as [[o|msg]|]; [| |discriminate].
    + destruct (OpenAI.detectError (stdout o ++ stderr o)) eqn:Hd.
      * intros H. inversion H. subst r. discriminate Hok.
      * destruct (truthy (OpenAI.extractResponse _ _)) eqn:Ht; cbn [negb];
          intros H; inversion H; subst r; [|discriminate Hok].
        cbn [Tool.text Tool.ok]. split; [now apply truthy_nonempty|].
        split; [apply extractResponse_trimmed|]. exists o. now repeat split.
    + destruct (OpenAI.detectError msg); intros H; inversion H; subst r; discriminate Hok.
  - destruct (promise (OpenAI.runCodex _ _)) as [[o|msg]|]; [| |discriminate].
    + destruct (OpenAI.detectError (stdout o ++ stderr o)) eqn:Hd.
      * intros H. inversion H. subst r. discriminate Hok.
      * intros H. inversion H. subst r. cbn [Tool.text Tool.ok].
        destruct (truthy (trim (stdout o ++ stderr o))) eqn:Ht.
        -- split; [now apply truthy_nonempty|]. split; [apply trim_idempotent|].
           exists o. rewrite Ht. now repeat split.
        -- split; [discriminate|]. split; [reflexivity|].
           exists o. rewrite Ht. now repeat split.
    + destruct (OpenAI.detectError msg); intros H; inversion H; subst r; discriminate Hok.
Qed.

Lemma X2_success_is_clean_witness :
  Tool.text (Tool.ok "4") <> "" /\ trim (Tool.text (Tool.ok "4")) = Tool.text (Tool.ok "4") /\
  exists o, promise (Qwen.runQwen (120 * 1000) [StdoutData " 4 "; Close (Some 0%Z)]) =
              Some (Resolved o) /\
            Qwen.detectError (stdout o ++ stderr o) = None /\
            Tool.text (Tool.ok "4") = trim (stdout o).
Proof.
  apply (proj1 (X2_success_is_clean 120 [StdoutData " 4 "; Close (Some 0%Z)] None
                  (Tool.ok "4") eq_refl)).
  reflexivity.
Defined.

(** ** Spawn errors *)

Lemma onError_promise msg r :
  promise r = None ->
  promise (Qwen.onError msg r) = Some (Rejected msg) /\
  promise (OpenAI.onError msg r) = Some (Rejected msg) /\
  promise (Gemini.onError msg r) = Some (Rejected msg).
Proof.
  destruct r as [o er k tm kt ex pk sg pr]. cbn [promise]. intros ->.
  repeat split.
Qed.

Lemma run_spawn_error t pre msg post : forallb isAlive pre = true ->
  promise (Qwen.runQwen t (pre ++ SpawnError msg :: post)) = Some (Rejected msg) /\
  promise (Gemini.runGemini t (pre ++ SpawnError msg :: post)) = Some (Rejected msg) /\
  promise (OpenAI.runCodex t (pre ++ SpawnError msg :: post)) = Some (Rejected msg).
Proof.
  intros Hpre. unfold Qwen.runQwen, Gemini.runGemini, OpenAI.runCodex.
  rewrite !fold_left_at.
  pose proof (run_alive _ (qwen_step_alive t) pre start Hpre) as Hq.
  pose proof (run_alive _ (gemini_step_alive t) pre start Hpre) as Hg.
  pose proof (run_alive _ (codex_step_alive t) pre start Hpre) as Hc.
  split; [|split].
  - apply (run_settled _ (qwen_step_settled t)).
    now apply onError_promise.
  - apply (run_settled _ (gemini_step_settled t)).
    now apply onError_promise.
  - apply (run_settled _ (codex_step_settled t)).
    now apply onError_promise.
Qed.

(** X3: when the [error] event of the child process (the command could not
    be spawned) arrives before any [close], the promise is rejected with
    that error, also when the main timer has fired in between, and whatever
    events follow.  Every tool then returns an [isError] result: the
    classifier's message when a rule matches the error message, and
    otherwise the error message behind the tool's own prefix. *)
Theorem X3_spawn_error (timeout : N) (pre post : list ProcEvent) (msg : string)
    (outputFile : option string) :
  forallb isAlive pre = true ->
  let trace := (pre ++ SpawnError msg :: post)%list in
  Qwen.qwen_chat timeout trace =
    Some (Tool.failed match Qwen.detectError msg with
                      | Some knownError => message knownError
                      | None => "Qwen error: " ++ msg
                      end) /\
  Gemini.gemini_chat timeout trace =
    Some (Tool.failed match Gemini.detectError msg with
                      | Some knownError => message knownError
                      | None => "Gemini error: " ++ msg
                      end) /\
  Gemini.gemini_analyze timeout trace =
    Some (Tool.failed match Gemini.detectError msg with
                      | Some knownError => message knownError
                      | None => "Gemini analyze error: " ++ msg
                      end) /\
  OpenAI.openai_chat timeout trace outputFile =
    Some (Tool.failed match OpenAI.detectError msg with
                      | Some knownError => message knownError
                      | None => "Codex error: " ++ msg
                      end) /\
  OpenAI.openai_review timeout trace =
    Some (Tool.failed match OpenAI.detectError msg with
                      | Some knownError => message knownError
                      | None => "Codex review error: " ++ msg
                      end).
Proof.
  intros Hpre. cbv zeta.
  destruct (run_spawn_error (timeout * 1000) pre msg post Hpre) as (Hq & Hg & Hc).
  unfold Qwen.qwen_chat, Gemini.gemini_chat, Gemini.gemini_analyze, Gemini.gemini_tool,
    OpenAI.openai_chat, OpenAI.openai_review.
  cbv zeta. rewrite Hq, Hg, Hc.
  repeat split;
    match goal with |- context [match ?d with _ => _ end] => now destruct d end.
Qed.

Lemma X3_spawn_error_witness :
  Qwen.qwen_chat 120 [TimerFires; SpawnError "spawn qwen ENOENT"; Close None] =
    Some (Tool.failed "Qwen error: spawn qwen ENOENT") /\
  OpenAI.openai_review 120 [SpawnError "spawn codex ENOENT"] =
    Some (Tool.failed "Codex review error: spawn codex ENOENT").
Proof.
  split.
  - apply (proj1 (X3_spawn_error 120 [TimerFires] [Close None] "spawn qwen ENOENT" None
                    eq_refl)).
  - apply (proj2 (proj2 (proj2 (proj2 (X3_spawn_error 120 [] [] "spawn codex ENOENT" None
                                         eq_refl))))).
Defined.

(** ** Signals *)

Ltac step_invariant :=
  intros;
  match goal with
  | r : Run, e : ProcEvent |- _ =>
      destruct e; destruct r as [o er k tm kt ex pk sg pr];
      cbv [escalation oneSigterm
           Qwen.step OpenAI.step Gemini.step Qwen.onClose OpenAI.onClose Gemini.onClose
           Qwen.onError OpenAI.onError Gemini.onError Gemini.onStdout Gemini.onStderr
           onTimeout onKillTimeout kill settle clearTimeout
           setOut setErr setKilled setTimer setKillTimer setExited] in *;
      cbn in *;
      repeat match goal with
             | |- context [match ?x with _ => _ end] => is_var x; destruct x; cbn in *
             | |- context [if ?b then _ else _] => destruct b eqn:?; cbn in *
             end
  end.

Lemma run_invariant (P : Run -> Prop) (step : Run -> ProcEvent -> Run) :
  (forall r e, P r -> P (step r e)) ->
  forall tr r, P r -> P (fold_left step tr r).
Proof.
  intros Hstep tr. induction tr as [|e tr IH]; intros r Hr; cbn [fold_left]; [exact Hr|].
  apply IH, Hstep, Hr.
Qed.

Ltac close_invariant :=
  unfold not in *;
  intuition (subst; cbn in *; try congruence; try discriminate);
  try solve [ right; split; [reflexivity|intro; discriminate] ].

Lemma qwen_step_escalation t r e :
  escalation r /\ oneSigterm r ->
  escalation (Qwen.step t r e) /\ oneSigterm (Qwen.step t r e).
Proof. step_invariant; close_invariant. Qed.

Lemma codex_step_escalation t r e :
  escalation r /\ oneSigterm r ->
  escalation (OpenAI.step t r e) /\ oneSigterm (OpenAI.step t r e).
Proof. step_invariant; close_invariant. Qed.

Lemma gemini_step_escalation t r e :
  escalation r /\ Forall (eq SIGTERM) (signals r) ->
  escalation (Gemini.step t r e) /\ Forall (eq SIGTERM) (signals (Gemini.step t r e)).
Proof.
  step_invariant; close_invariant;
    try solve [ apply Forall_app; split; [assumption|now constructor] ].
Qed.

(** The escalation callback delivers nothing. *)
Lemma escalation_callback_idle t r :
  escalation r ->
  signals (Qwen.step t r KillTimerFires) = signals r /\
  signals (OpenAI.step t r KillTimerFires) = signals r /\
  signals (Gemini.step t r KillTimerFires) = signals r.
Proof.
  destruct r as [o er k tm kt ex pk sg pr].
  cbv [escalation Qwen.step OpenAI.step Gemini.step onKillTimeout kill setKillTimer].
  cbn. intros H. destruct kt; cbn; try (repeat split; reflexivity).
  destruct pk; cbn; [repeat split; reflexivity|].
  destruct ex; cbn; [repeat split; reflexivity|].
  destruct (H eq_refl); discriminate.
Qed.

(** X4: the escalation never delivers SIGKILL.  The escalation callback
    calls [proc.kill("SIGKILL")] only if [proc.killed] is false, and while
    the escalation timer is armed [proc.killed] is false only when the
    SIGTERM of the timeout callback found the process already exited; so
    the callback delivers nothing, to a process that ignores SIGTERM no
    more than to any other.  On every trace the Qwen and Codex executors
    deliver no signal at all or one SIGTERM, and every signal the Gemini
    executor delivers is a SIGTERM.  ([proc.kill] on a process that has not
    exited is taken to deliver its signal.) *)
Theorem X4_no_sigkill (timeoutMs : N) (trace : list ProcEvent) :
  ((signals (Qwen.runQwen timeoutMs trace) = [] \/
    signals (Qwen.runQwen timeoutMs trace) = [SIGTERM]) /\
   (killTimer (Qwen.runQwen timeoutMs trace) = Armed ->
    procKilled (Qwen.runQwen timeoutMs trace) = false ->
    exited (Qwen.runQwen timeoutMs trace) = true) /\
   signals (Qwen.runQwen timeoutMs (trace ++ [KillTimerFires])) =
     signals (Qwen.runQwen timeoutMs trace)) /\
  ((signals (OpenAI.runCodex timeoutMs trace) = [] \/
    signals (OpenAI.runCodex timeoutMs trace) = [SIGTERM]) /\
   (killTimer (OpenAI.runCodex timeoutMs trace) = Armed ->
    procKilled (OpenAI.runCodex timeoutMs trace) = false ->
    exited (OpenAI.runCodex timeoutMs trace) = true) /\
   signals (OpenAI.runCodex timeoutMs (trace ++ [KillTimerFires])) =
     signals (OpenAI.runCodex timeoutMs trace)) /\
  (Forall (eq SIGTERM) (signals (Gemini.runGemini timeoutMs trace)) /\
   (killTimer (Gemini.runGemini timeoutMs trace) = Armed ->
    procKilled (Gemini.runGemini timeoutMs trace) = false ->
    exited (Gemini.runGemini timeoutMs trace) = true) /\
   signals (Gemini.runGemini timeoutMs (trace ++ [KillTimerFires])) =
     signals (Gemini.runGemini timeoutMs trace)).
Proof.
  assert (Hstart : escalation start /\ oneSigterm start).
  { unfold escalation, oneSigterm. cbn. split; [discriminate|now left]. }
  assert (Hstart' : escalation start /\ Forall (eq SIGTERM) (signals start)).
  { split; [apply Hstart|constructor]. }
  pose proof (run_invariant _ _ (qwen_step_escalation timeoutMs) trace start Hstart) as Hq.
  pose proof (run_invariant _ _ (codex_step_escalation timeoutMs) trace start Hstart) as Hc.
  pose proof (run_invariant _ _ (gemini_step_escalation timeoutMs) trace start Hstart')
    as Hg.
  unfold Qwen.runQwen, OpenAI.runCodex, Gemini.runGemini.
  rewrite !fold_left_app. cbn [fold_left].
  destruct Hq as [Hq1 Hq2], Hc as [Hc1 Hc2], Hg as [Hg1 Hg2].
  assert (Hesc : forall r, escalation r ->
                 killTimer r = Armed -> procKilled r = false -> exited r = true).
  { intros r H Hk Hp. destruct (H Hk) as [H'|H']; [congruence|exact H']. }
  assert (Hone : forall r, oneSigterm r -> signals r = [] \/ signals r = [SIGTERM]).
  { intros r [H|[H _]]; auto. }
  repeat split; auto;
    now apply (escalation_callback_idle timeoutMs).
Qed.

Lemma X4_no_sigkill_witness :
  exited (Qwen.runQwen 1000 [StdoutData "x"; ProcExit; TimerFires]) = true /\
  exited (OpenAI.runCodex 1000 [StdoutData "x"; ProcExit; TimerFires]) = true /\
  exited (Gemini.runGemini 1000 [StdoutData "x"; ProcExit; TimerFires]) = true.
Proof.
  split; [|split].
  - apply (proj1 (proj2 (proj1 (X4_no_sigkill 1000 [StdoutData "x"; ProcExit; TimerFires]))));
      reflexivity.
  - apply (proj1 (proj2 (proj1 (proj2 (X4_no_sigkill 1000
                                         [StdoutData "x"; ProcExit; TimerFires])))));
      reflexivity.
  - apply (proj1 (proj2 (proj2 (proj2 (X4_no_sigkill 1000
                                         [StdoutData "x"; ProcExit; TimerFires])))));
      reflexivity.
Defined.

(** ** The main timer at exit *)

Lemma qwen_step_timer t r e :
  (isExit e = true -> timer (Qwen.step t r e) <> Armed) /\
  (timer r <> Armed -> timer (Qwen.step t r e) <> Armed).
Proof. unfold isExit. step_invariant; split; intros; congruence. Qed.

Lemma codex_step_timer t r e :
  (isExit e = true -> timer (OpenAI.step t r e) <> Armed) /\
  (timer r <> Armed -> timer (OpenAI.step t r e) <> Armed).
Proof. unfold isExit. step_invariant; split; intros; congruence. Qed.

Lemma gemini_step_timers t r e :
  (isExit e = true ->
   timer (Gemini.step t r e) <> Armed /\ killTimer (Gemini.step t r e) <> Armed) /\
  (timer r <> Armed /\ killTimer r <> Armed ->
   timer (Gemini.step t r e) <> Armed /\ killTimer (Gemini.step t r e) <> Armed).
Proof.
  unfold isExit. step_invariant; split; intros; try discriminate;
    repeat match goal with H : _ /\ _ |- _ => destruct H end;
    split; congruence.
Qed.

(** X5: in all three executors the main timeout timer is no longer armed
    once a [close] or an [error] event has been handled, and it is never
    armed again, whatever events follow; in the Gemini executor the same
    holds for the escalation timer. *)
Theorem X5_main_timer_released (timeoutMs : N) (pre post : list ProcEvent) (e : ProcEvent) :
  isExit e = true ->
  timer (Qwen.runQwen timeoutMs (pre ++ e :: post)) <> Armed /\
  timer (OpenAI.runCodex timeoutMs (pre ++ e :: post)) <> Armed /\
  timer (Gemini.runGemini timeoutMs (pre ++ e :: post)) <> Armed /\
  killTimer (Gemini.runGemini timeoutMs (pre ++ e :: post)) <> Armed.
Proof.
  intros He. unfold Qwen.runQwen, OpenAI.runCodex, Gemini.runGemini.
  rewrite !fold_left_at.
  split; [|split].
  - apply (run_invariant (fun r => timer r <> Armed) _
             (fun r e => proj2 (qwen_step_timer timeoutMs r e))).
    exact (proj1 (qwen_step_timer _ _ _) He).
  - apply (run_invariant (fun r => timer r <> Armed) _
             (fun r e => proj2 (codex_step_timer timeoutMs r e))).
    exact (proj1 (codex_step_timer _ _ _) He).
  - apply (run_invariant (fun r => timer r <> Armed /\ killTimer r <> Armed) _
             (fun r e => proj2 (gemini_step_timers timeoutMs r e))).
    exact (proj1 (gemini_step_timers _ _ _) He).
Qed.

Lemma X5_main_timer_released_witness :
  timer (Qwen.runQwen 120000 [StdoutData "x"; SpawnError "EPIPE"; TimerFires]) <> Armed /\
  timer (OpenAI.runCodex 120000 [StdoutData "x"; SpawnError "EPIPE"; TimerFires]) <> Armed /\
  timer (Gemini.runGemini 120000 [StdoutData "x"; SpawnError "EPIPE"; TimerFires]) <> Armed /\
  killTimer (Gemini.runGemini 120000 [StdoutData "x"; SpawnError "EPIPE"; TimerFires])
    <> Armed.
Proof.
  apply (X5_main_timer_released 120000 [StdoutData "x"] [TimerFires] (SpawnError "EPIPE")
           eq_refl).
Defined.

(** ** A flooded Gemini run, as the tools report it *)




(** ** Quota phrases anywhere in the text *)

Lemma toLowerCase_app (a b : string) :
  toLowerCase (a ++ b) = toLowerCase a ++ toLowerCase b.
Proof.
  induction a as [|c a IH]; cbn [append toLowerCase]; [reflexivity|now rewrite IH].
Qed.

Lemma startsWith_app (p s : string) : startsWith p (p ++ s) = true.
Proof.
  unfold startsWith. induction p as [|c p IH]; cbn [append prefix].
  - now destruct s.
  - destruct (ascii_dec c c) as [_|Hc]; [exact IH|now elim Hc].
Qed.

Lemma includes_app (p a b : string) : includes p (a ++ p ++ b) = true.
Proof.
  induction a as [|c a IH].
  - cbn [append]. destruct (p ++ b) eqn:E; cbn [includes]; rewrite <- E;
      now rewrite startsWith_app.
  - cbn [append includes]. rewrite IH. apply orb_true_r.
Qed.

Lemma includes_phrase (pre w post : string) :
  includes (toLowerCase w) (toLowerCase (pre ++ w ++ post)) = true.
Proof. rewrite !toLowerCase_app. apply includes_app. Qed.

(** X7: a quota phrase anywhere in the output, in any letter case and with
    any text around it, makes the classifier answer QUOTA_EXCEEDED, whatever
    else the output says: [quota], [rate limit] and [insufficient_quota] for
    Qwen, [quota], [rate limit] and [resource_exhausted] for Gemini,
    [usage limit] for OpenAI. *)
Theorem X7_quota_phrase_anywhere (pre w post : string) :
  (In (toLowerCase w) ["quota"; "rate limit"; "insufficient_quota"] ->
   kindOf (Qwen.detectError (pre ++ w ++ post)) = Some "QUOTA_EXCEEDED") /\
  (In (toLowerCase w) ["quota"; "rate limit"; "resource_exhausted"] ->
   kindOf (Gemini.detectError (pre ++ w ++ post)) = Some "QUOTA_EXCEEDED") /\
  (toLowerCase w = "usage limit" ->
   kindOf (OpenAI.detectError (pre ++ w ++ post)) = Some "QUOTA_EXCEEDED").
Proof.
  pose proof (includes_phrase pre w post) as H.
  unfold kindOf, Qwen.detectError, Gemini.detectError, OpenAI.detectError,
    Qwen.quota, Gemini.quota, OpenAI.usageLimit.
  cbv zeta. split; [|split].
  - intros [Hw|[Hw|[Hw|[]]]]; rewrite <- Hw in H; rewrite H; rewrite ?orb_true_r;
      reflexivity.
  - intros [Hw|[Hw|[Hw|[]]]]; rewrite <- Hw in H; rewrite H; rewrite ?orb_true_r;
      reflexivity.
  - intros Hw. rewrite Hw in H. rewrite H. reflexivity.
Qed.

Lemma X7_quota_phrase_anywhere_witness :
  kindOf (Qwen.detectError ("Error 429: " ++ "Rate Limit" ++ " reached; unauthorized")) =
    Some "QUOTA_EXCEEDED" /\
  kindOf (Gemini.detectError ("status: " ++ "RESOURCE_EXHAUSTED" ++ ", please login")) =
    Some "QUOTA_EXCEEDED" /\
  kindOf (OpenAI.detectError ("You've hit your " ++ "Usage Limit" ++ ". auth expired")) =
    Some "QUOTA_EXCEEDED".
Proof.
  split; [|split].
  - apply (proj1 (X7_quota_phrase_anywhere "Error 429: " "Rate Limit"
                    " reached; unauthorized")).
    right. left. reflexivity.
  - apply (proj1 (proj2 (X7_quota_phrase_anywhere "status: " "RESOURCE_EXHAUSTED"
                           ", please login"))).
    right. right. left. reflexivity.
  - apply (proj2 (proj2 (X7_quota_phrase_anywhere "You've hit your " "Usage Limit"
                           ". auth expired"))).
    reflexivity.
Defined.

(** ** extractResponse *)

Lemma truthy_trim (s : string) : truthy (trim s) = true -> truthy s = true.
Proof. now destruct s. Qed.

Lemma responseLines_no_marker (lines : list string) :
  forallb (fun line => negb (String.eqb (trim line) "codex")) lines = true ->
  OpenAI.responseLines false lines = [].
Proof.
  induction lines as [|line rest IH]; cbn [forallb OpenAI.responseLines]; [reflexivity|].
  intros H. apply andb_prop in H. destruct H as [Hl Hrest].
  apply negb_true_iff in Hl. rewrite Hl. cbn [andb]. now apply IH.
Qed.

(** X8: [extractResponse] prefers the output file: when the file holds
    anything besides white space the response is the trimmed file, whatever
    stdout holds.  When the file is blank or absent and no line of stdout
    trims to [codex], the response is the trimmed stdout.  In every case the
    response carries no white space at either end. *)
Theorem X8_extractResponse_sources (stdout outputFileContent : string) :
  (truthy (trim outputFileContent) = true ->
   OpenAI.extractResponse stdout outputFileContent = trim outputFileContent) /\
  (truthy (trim outputFileContent) = false ->
   forallb (fun line => negb (String.eqb (trim line) "codex")) (splitLines stdout) = true ->
   OpenAI.extractResponse stdout outputFileContent = trim stdout) /\
  trim (OpenAI.extractResponse stdout outputFileContent) =
    OpenAI.extractResponse stdout outputFileContent.
Proof.
  split; [|split].
  - intros H. unfold OpenAI.extractResponse. now rewrite (truthy_trim _ H), H.
  - intros H Hlines. unfold OpenAI.extractResponse.
    rewrite H, andb_false_r. now rewrite responseLines_no_marker.
  - apply extractResponse_trimmed.
Qed.

Lemma X8_extractResponse_sources_witness :
  OpenAI.extractResponse "[2025] thinking..." "  The answer is 4.
" = "The answer is 4." /\
  OpenAI.extractResponse "  plain answer
" "   " = "plain answer".
Proof.
  split.
  - apply (proj1 (X8_extractResponse_sources "[2025] thinking..." "  The answer is 4.
")).
    reflexivity.
  - apply (proj1 (proj2 (X8_extractResponse_sources "  plain answer
" "   "))); reflexivity.
Defined.

(** Splitting at line feeds undoes joining with line feeds. *)

Lemma splitLines_noLF (l : string) : noLF l = true -> splitLines l = [l].
Proof.
  induction l as [|c l IH]; cbn [noLF splitLines]; [reflexivity|].
  intros H. apply andb_prop in H. destruct H as [Hc Hl].
  apply negb_true_iff in Hc. rewrite Hc, (IH Hl). reflexivity.
Qed.

Lemma splitLines_app_LF (l x : string) :
  noLF l = true -> splitLines (l ++ String LF x) = l :: splitLines x.
Proof.
  induction l as [|c l IH]; cbn [noLF append]; intros H.
  - cbn [splitLines]. now rewrite Ascii.eqb_refl.
  - apply andb_prop in H. destruct H as [Hc Hl]. apply negb_true_iff in Hc.
    cbn [splitLines]. rewrite Hc, (IH Hl). reflexivity.
Qed.

Lemma splitLines_joinLines (ls : list string) :
  ls <> [] -> forallb noLF ls = true -> splitLines (joinLines ls) = ls.
Proof.
  induction ls as [|l ls IH]; [easy|]. intros _ H.
  cbn [forallb] in H. apply andb_prop in H. destruct H as [Hl Hls].
  destruct ls as [|l2 rest].
  - cbn [joinLines]. now apply splitLines_noLF.
  - change (joinLines (l :: l2 :: rest)) with (l ++ String LF (joinLines (l2 :: rest))).
    rewrite splitLines_app_LF by exact Hl. f_equal. now apply IH.
Qed.

(** The loop of [extractResponse] over a transcript. *)

Lemma responseLines_header (header rest : list string) :
  forallb (fun line => negb (isMarker line)) header = true ->
  OpenAI.responseLines false (header ++ rest) = OpenAI.responseLines false rest.
Proof.
  induction header as [|line header IH]; cbn [forallb app OpenAI.responseLines];
    [reflexivity|].
  intros H. apply andb_prop in H. destruct H as [Hl Hrest].
  apply negb_true_iff in Hl. unfold isMarker in Hl. rewrite Hl. cbn [andb].
  now apply IH.
Qed.

Lemma responseLines_body (body rest : list string) :
  forallb (fun line => negb (isMarker line) && negb (isFooter line)) body = true ->
  OpenAI.responseLines true (body ++ rest) = (body ++ OpenAI.responseLines true rest)%list.
Proof.
  induction body as [|line body IH]; cbn [forallb app OpenAI.responseLines];
    [reflexivity|].
  intros H. apply andb_prop in H. destruct H as [Hl Hrest].
  apply andb_prop in Hl. destruct Hl as [Hm Hf].
  apply negb_true_iff in Hm, Hf. unfold isMarker in Hm. unfold isFooter in Hf.
  rewrite Hm, Hf. cbn [andb]. now rewrite IH.
Qed.

Lemma footer_not_marker (line : string) : isFooter line = true -> isMarker line = false.
Proof.
  unfold isFooter, isMarker, startsWith. destruct line as [|c line]; [discriminate|].
  cbn [prefix]. destruct (ascii_dec "t" c) as [<-|]; [|discriminate]. intros _.
  unfold trim. cbn [trimStart]. change (isWhiteSpace "t") with false. cbv iota.
  cbn [trimEnd]. destruct (trimEnd line); reflexivity.
Qed.

Lemma responseLines_footer (footer : string) (rest : list string) :
  isFooter footer = true -> OpenAI.responseLines true (footer :: rest) = [].
Proof.
  intros H. cbn [OpenAI.responseLines].
  pose proof (footer_not_marker _ H) as Hm. unfold isMarker in Hm. unfold isFooter in H.
  now rewrite Hm, H.
Qed.

Lemma extractResponse_transcript (header body rest : list string)
    (marker footer outputFileContent : string) :
  forallb noLF (header ++ marker :: body ++ footer :: rest) = true ->
  forallb (fun line => negb (isMarker line)) header = true ->
  isMarker marker = true ->
  forallb (fun line => negb (isMarker line) && negb (isFooter line)) body = true ->
  isFooter footer = true ->
  truthy (trim outputFileContent) = false ->
  OpenAI.extractResponse (joinLines (header ++ marker :: body ++ footer :: rest))
    outputFileContent =
    match body with
    | [] => trim (joinLines (header ++ marker :: body ++ footer :: rest))
    | _ => trim (joinLines body)
    end.
Proof.
  intros Hlf Hheader Hmarker Hbody Hfooter Hfile.
  unfold OpenAI.extractResponse. rewrite Hfile, andb_false_r.
  rewrite splitLines_joinLines; [|now destruct header|exact Hlf].
  rewrite responseLines_header by exact Hheader.
  cbn [OpenAI.responseLines]. unfold isMarker in Hmarker. rewrite Hmarker.
  rewrite responseLines_body by exact Hbody.
  rewrite responseLines_footer by exact Hfooter.
  rewrite app_nil_r. now destruct body.
Qed.

(** X9: on a transcript whose lines are some header lines, a line that
    trims to [codex], body lines, a line starting with [tokens used] and
    anything after it, and with a blank or absent output file,
    [extractResponse] returns the body lines joined by line feeds and
    trimmed; nothing of the header, of the footer or of what follows the
    footer gets into the response.  With an empty body it falls back to the
    whole trimmed transcript. *)
Theorem X9_extractResponse_transcript (header body rest : list string)
    (marker footer outputFileContent : string) :
  forallb noLF (header ++ marker :: body ++ footer :: rest) = true ->
  forallb (fun line => negb (isMarker line)) header = true ->
  isMarker marker = true ->
  forallb (fun line => negb (isMarker line) && negb (isFooter line)) body = true ->
  isFooter footer = true ->
  truthy (trim outputFileContent) = false ->
  let transcript := joinLines (header ++ marker :: body ++ footer :: rest) in
  OpenAI.extractResponse transcript outputFileContent =
    match body with
    | [] => trim transcript
    | _ => trim (joinLines body)
    end.
Proof.
  intros Hlf Hheader Hmarker Hbody Hfooter Hfile. cbv zeta.
  now apply extractResponse_transcript.
Qed.

Lemma X9_extractResponse_transcript_witness :
  OpenAI.extractResponse
    (joinLines (["OpenAI Codex v0.1"; "user"; "2+2?"] ++ " codex " ::
                ["The answer"; "is 4. "] ++ "tokens used: 12" :: ["trailer"])) "" =
  "The answer
is 4.".
Proof.
  apply (X9_extractResponse_transcript ["OpenAI Codex v0.1"; "user"; "2+2?"]
           ["The answer"; "is 4. "] ["trailer"] " codex " "tokens used: 12" ""
           eq_refl eq_refl eq_refl eq_refl eq_refl eq_refl).
Defined.

(** ** The smoke test's reader *)

Lemma splitLines_nonempty (s : string) : splitLines s <> [].
Proof.
  destruct s as [|c s]; cbn [splitLines]; [discriminate|].
  destruct (Ascii.eqb c LF); [discriminate|]. now destruct (splitLines s).
Qed.

Lemma splitLines_app (a b : string) :
  splitLines (a ++ b) =
  (removelast (splitLines a) ++ splitLines (last (splitLines a) "" ++ b))%list.
Proof.
  induction a as [|c a IH]; [reflexivity|].
  cbn [append splitLines]. destruct (Ascii.eqb c LF) eqn:Hc.
  - rewrite IH. pose proof (splitLines_nonempty a) as Hne.
    destruct (splitLines a) as [|l ls]; [now elim Hne|]. reflexivity.
  - rewrite IH. pose proof (splitLines_nonempty a) as Hne.
    destruct (splitLines a) as [|l ls]; [now elim Hne|].
    destruct ls as [|l' ls'].
    + cbn [removelast last app append splitLines]. now rewrite Hc.
    + reflexivity.
Qed.

Lemma splitLines_all_noLF (s : string) : forallb noLF (splitLines s) = true.
Proof.
  induction s as [|c s IH]; [reflexivity|].
  cbn [splitLines]. destruct (Ascii.eqb c LF) eqn:Hc; [exact IH|].
  destruct (splitLines s) as [|l ls]; cbn [forallb noLF] in *; rewrite Hc; [reflexivity|].
  exact IH.
Qed.

Lemma last_noLF (ls : list string) : forallb noLF ls = true -> noLF (last ls "") = true.
Proof.
  induction ls as [|l ls IH]; [reflexivity|].
  cbn [forallb]. intros H. apply andb_prop in H. destruct H as [Hl Hls].
  destruct ls as [|l' ls']; [exact Hl|]. now apply IH.
Qed.

Lemma last_append {A} (l1 l2 : list A) (d : A) :
  l2 <> [] -> last (l1 ++ l2) d = last l2 d.
Proof.
  intros Hne. induction l1 as [|x l1 IH]; [reflexivity|].
  cbn [app]. destruct (l1 ++ l2)%list eqn:E.
  - apply app_eq_nil in E. now destruct E.
  - rewrite <- E in *. cbn [last]. rewrite E. rewrite <- E. exact IH.
Qed.

Section ReaderFacts.

Variable Json : Type.
Variable parse : string -> option Json.

Lemma pushLines_app (l1 l2 : list string) : forall acc,
  SmokeTest.pushLines parse (l1 ++ l2) acc =
  SmokeTest.pushLines parse l2 (SmokeTest.pushLines parse l1 acc).
Proof.
  induction l1 as [|l l1 IH]; intros acc; [reflexivity|].
  cbn [app SmokeTest.pushLines]. apply IH.
Qed.

(** What the reader holds after the chunks of a text [seen] stays right
    when more chunks arrive. *)
Lemma reader_tracks (chunks : list string) : forall (r : SmokeTest.Reader Json) (seen : string),
  SmokeTest.stdout r = last (splitLines seen) "" ->
  SmokeTest.responses r = SmokeTest.pushLines parse (removelast (splitLines seen)) [] ->
  let r' := fold_left (SmokeTest.onData parse) chunks r in
  let lines := splitLines (seen ++ joinChunks chunks) in
  SmokeTest.stdout r' = last lines "" /\
  SmokeTest.responses r' = SmokeTest.pushLines parse (removelast lines) [].
Proof.
  induction chunks as [|d chunks IH]; intros r seen Hs Hr; cbv zeta.
  - cbn [fold_left joinChunks fold_right]. rewrite append_nil_r. now split.
  - cbn [fold_left joinChunks fold_right]. fold (joinChunks chunks).
    rewrite <- append_assoc. apply IH.
    + unfold SmokeTest.onData. cbn [SmokeTest.stdout]. rewrite Hs.
      rewrite (splitLines_app seen d). symmetry. apply last_append, splitLines_nonempty.
    + unfold SmokeTest.onData. cbn [SmokeTest.responses]. rewrite Hs, Hr.
      rewrite (splitLines_app seen d).
      rewrite removelast_app by apply splitLines_nonempty.
      now rewrite pushLines_app.
Qed.

End ReaderFacts.

(** X10: the reader of the smoke test does not depend on how the server's
    output is cut into chunks.  After any sequence of chunks, the responses
    collected are those of the complete lines of the concatenated output,
    in order, each non-blank line parsed once and the lines that do not
    parse skipped; and the buffer holds the text after the last line feed,
    which contains no line feed. *)
Theorem X10_reader_chunking (Json : Type) (parse : string -> option Json)
    (chunks : list string) :
  let lines := splitLines (joinChunks chunks) in
  SmokeTest.stdout (SmokeTest.read parse chunks) = last lines "" /\
  SmokeTest.responses (SmokeTest.read parse chunks) =
    SmokeTest.pushLines parse (removelast lines) [] /\
  noLF (SmokeTest.stdout (SmokeTest.read parse chunks)) = true.
Proof.
  cbv zeta.
  destruct (reader_tracks Json parse chunks SmokeTest.start "" eq_refl eq_refl)
    as [Hs Hr].
  cbn [append] in Hs, Hr. unfold SmokeTest.read.
  split; [exact Hs|]. split; [exact Hr|].
  rewrite Hs. apply last_noLF, splitLines_all_noLF.
Qed.

(** ** The reset date in the Codex quota message *)

Lemma startsWith_drop (p s : string) :
  startsWith p s = true -> s = p ++ drop (String.length p) s.
Proof.
  unfold startsWith. revert s. induction p as [|c p IH]; intros s; [reflexivity|].
  destruct s as [|x s]; cbn [prefix]; [discriminate|].
  destruct (ascii_dec c x) as [<-|]; [|discriminate].
  intros H. cbn [String.length drop append]. now rewrite <- (IH s H).
Qed.

Lemma lazyRest_sound (s d : string) :
  OpenAI.lazyRest s = Some d ->
  exists sep post, s = d ++ String sep post /\ (sep = "."%char \/ sep = LF) /\
                   oneLine d = true.
Proof.
  revert d. induction s as [|c s IH]; intros d; cbn [OpenAI.lazyRest]; [discriminate|].
  destruct (Ascii.eqb c "."%char || Ascii.eqb c LF) eqn:Hsep.
  - intros H. inversion H. subst d. exists c, s. split; [reflexivity|]. split; [|reflexivity].
    apply orb_prop in Hsep. destruct Hsep as [H1|H1]; apply Ascii.eqb_eq in H1; auto.
  - destruct (Ascii.eqb c CR) eqn:Hcr; [discriminate|].
    destruct (OpenAI.lazyRest s) as [d'|]; [|discriminate].
    intros H. inversion H. subst d.
    destruct (IH d' eq_refl) as (sep & post & -> & Hs & Hd).
    exists sep, post. split; [reflexivity|]. split; [exact Hs|].
    apply orb_false_elim in Hsep. destruct Hsep as [_ Hlf].
    cbn [oneLine]. now rewrite Hlf, Hcr, Hd.
Qed.

Lemma matchAt_sound (s d : string) :
  OpenAI.matchAt s = Some d ->
  exists sep post, s = "try again at " ++ d ++ String sep post /\
                   (sep = "."%char \/ sep = LF) /\ oneLine d = true /\ d <> "".
Proof.
  unfold OpenAI.matchAt. destruct (startsWith "try again at " s) eqn:Hp; [|discriminate].
  apply startsWith_drop in Hp. cbn [String.length] in Hp.
  destruct (drop 13 s) as [|c s'] eqn:Hd; [discriminate|].
  destruct (Ascii.eqb c LF || Ascii.eqb c CR) eqn:Hc; [discriminate|].
  destruct (OpenAI.lazyRest s') as [d'|] eqn:Hl; [|discriminate].
  intros H. inversion H. subst d.
  destruct (lazyRest_sound _ _ Hl) as (sep & post & -> & Hs & Hone).
  exists sep, post. split; [exact Hp|]. split; [exact Hs|].
  apply orb_false_elim in Hc. destruct Hc as [Hlf Hcr].
  split; [|discriminate]. cbn [oneLine]. now rewrite Hlf, Hcr, Hone.
Qed.

Lemma matchResetDate_sound (output d : string) :
  OpenAI.matchResetDate output = Some d ->
  exists pre sep post, output = pre ++ "try again at " ++ d ++ String sep post /\
                       (sep = "."%char \/ sep = LF) /\ oneLine d = true /\ d <> "".
Proof.
  induction output as [|c output IH].
  - cbn [OpenAI.matchResetDate]. destruct (OpenAI.matchAt "") eqn:Hm; [|discriminate].
    intros H. inversion H. subst. destruct (matchAt_sound _ _ Hm) as (sep & post & He & Hr).
    exists "", sep, post. now split.
  - cbn [OpenAI.matchResetDate]. destruct (OpenAI.matchAt (String c output)) eqn:Hm.
    + intros H. inversion H. subst.
      destruct (matchAt_sound _ _ Hm) as (sep & post & He & Hr).
      exists "", sep, post. now split.
    + intros H. destruct (IH H) as (pre & sep & post & -> & Hr).
      exists (String c pre), sep, post. now split.
Qed.

(** X11: the quota message of the Codex classifier names a reset date that
    is either the word [unknown] or a piece of the output itself: a
    non-empty text without a line break that follows the words
    [try again at ] (in this letter case) and is followed by a dot or a line
    feed. *)
Theorem X11_reset_date_from_output (output : string) (e : DetectedError) :
  OpenAI.detectError output = Some e ->
  errorType e = "QUOTA_EXCEEDED" ->
  exists resetDate,
    message e = "Codex usage limit reached. Credits reset at: " ++ resetDate ++
                ". Use a fallback provider." /\
    (resetDate = "unknown" \/
     exists pre sep post,
       output = pre ++ "try again at " ++ resetDate ++ String sep post /\
       (sep = "."%char \/ sep = LF) /\ oneLine resetDate = true /\ resetDate <> "").
Proof.
  unfold OpenAI.detectError. cbv zeta.
  destruct (OpenAI.usageLimit _).
  - intros H _. inversion H. subst e. cbn [message].
    destruct (OpenAI.matchResetDate output) as [d|] eqn:Hd.
    + exists d. split; [reflexivity|]. right. now apply matchResetDate_sound.
    + exists "unknown". split; [reflexivity|]. now left.
  - destruct (OpenAI.notSupported _); [intros H; inversion H; subst e; discriminate|].
    destruct (OpenAI.authExpired _); [intros H; inversion H; subst e; discriminate|].
    discriminate.
Qed.

Lemma X11_reset_date_from_output_witness :
  exists resetDate,
    message (mkDetected true "QUOTA_EXCEEDED"
               "Codex usage limit reached. Credits reset at: 5:30 PM. Use a fallback provider.") =
      "Codex usage limit reached. Credits reset at: " ++ resetDate ++
      ". Use a fallback provider." /\
    (resetDate = "unknown" \/
     exists pre sep post,
       "You've hit your usage limit, try again at 5:30 PM. Bye" =
         pre ++ "try again at " ++ resetDate ++ String sep post /\
       (sep = "."%char \/ sep = LF) /\ oneLine resetDate = true /\ resetDate <> "").
Proof.
  apply (X11_reset_date_from_output
           "You've hit your usage limit, try again at 5:30 PM. Bye"
           (mkDetected true "QUOTA_EXCEEDED"
              "Codex usage limit reached. Credits reset at: 5:30 PM. Use a fallback provider."));
    reflexivity.
Defined.

(** ** openai_review *)



(** ** No signal without a cause *)

Lemma qwen_step_unsignalled t r e :
  isTimerFires e = false ->
  killed r = false /\ signals r = [] /\ killTimer r = Unset ->
  killed (Qwen.step t r e) = false /\ signals (Qwen.step t r e) = [] /\
  killTimer (Qwen.step t r e) = Unset.
Proof.
  step_invariant; try discriminate;
    repeat match goal with H : _ /\ _ |- _ => destruct H end;
    subst; repeat split; congruence.
Qed.

Lemma codex_step_unsignalled t r e :
  isTimerFires e = false ->
  killed r = false /\ signals r = [] /\ killTimer r = Unset ->
  killed (OpenAI.step t r e) = false /\ signals (OpenAI.step t r e) = [] /\
  killTimer (OpenAI.step t r e) = Unset.
Proof.
  step_invariant; try discriminate;
    repeat match goal with H : _ /\ _ |- _ => destruct H end;
    subst; repeat split; congruence.
Qed.

Lemma run_unsignalled (step : Run -> ProcEvent -> Run) :
  (forall r e, isTimerFires e = false ->
     killed r = false /\ signals r = [] /\ killTimer r = Unset ->
     killed (step r e) = false /\ signals (step r e) = [] /\ killTimer (step r e) = Unset) ->
  forall tr r, forallb (fun e => negb (isTimerFires e)) tr = true ->
    killed r = false /\ signals r = [] /\ killTimer r = Unset ->
    killed (fold_left step tr r) = false /\ signals (fold_left step tr r) = [].
Proof.
  intros Hstep tr. induction tr as [|e tr IH]; intros r Htr Hr; cbn [fold_left].
  - destruct Hr as (? & ? & ?). now split.
  - cbn [forallb] in Htr. apply andb_prop in Htr. destruct Htr as [He Htr].
    apply negb_true_iff in He. apply IH; [exact Htr|]. now apply Hstep.
Qed.

Lemma gemini_run_unsignalled t tr : forall r,
  forallb (fun e => negb (isTimerFires e)) tr = true ->
  strlen (out r ++ outOf tr) <= Gemini.MAX_BUFFER ->
  strlen (err r ++ errOf tr) <= Gemini.MAX_BUFFER ->
  killed r = false /\ signals r = [] /\ killTimer r = Unset ->
  killed (fold_left (Gemini.step t) tr r) = false /\
  signals (fold_left (Gemini.step t) tr r) = [].
Proof.
  induction tr as [|e tr IH]; intros r Htr Ho He Hr; cbn [fold_left].
  - destruct Hr as (? & ? & ?). now split.
  - cbn [forallb] in Htr. apply andb_prop in Htr. destruct Htr as [Hne Htr].
    apply negb_true_iff in Hne.
    apply IH; [exact Htr| | |].
    + rewrite gemini_step_out. change (e :: tr) with ([e] ++ tr)%list in Ho.
      now rewrite outOf_app, <- append_assoc in Ho.
    + rewrite gemini_step_err. change (e :: tr) with ([e] ++ tr)%list in He.
      now rewrite errOf_app, <- append_assoc in He.
    + assert (Ho' : strlen (out r ++ outOf [e]) <= Gemini.MAX_BUFFER).
      { change (e :: tr) with ([e] ++ tr)%list in Ho.
        rewrite outOf_app, <- append_assoc, strlen_append in Ho. lia. }
      assert (He' : strlen (err r ++ errOf [e]) <= Gemini.MAX_BUFFER).
      { change (e :: tr) with ([e] ++ tr)%list in He.
        rewrite errOf_app, <- append_assoc, strlen_append in He. lia. }
      clear Ho He IH Htr. apply N.ltb_ge in Ho', He'.
      destruct e; destruct r as [o er k tm kt ex pk sg pr];
        cbn [out err outOf errOf] in Ho', He'; rewrite ?append_nil_r in Ho', He';
        cbv [Gemini.step Gemini.onClose Gemini.onError Gemini.onStdout Gemini.onStderr
             onTimeout onKillTimeout kill settle clearTimeout
             setOut setErr setKilled setTimer setKillTimer setExited];
        cbn [out err killed timer killTimer exited procKilled signals promise] in *;
        rewrite ?Ho', ?He';
        try discriminate;
        destruct Hr as (Hk & Hs & Hkt); subst;
        repeat match goal with
               | |- context [match ?x with _ => _ end] => is_var x; destruct x
               end;
        cbn [killed signals killTimer]; repeat split; reflexivity.
Qed.

(** X13: an executor sends a signal only for a cause.  In the Qwen and Codex
    executors a run whose main timer does not fire is never marked killed
    and never signalled, however much the process writes; in the Gemini
    executor the same holds as long as stdout and stderr stay within
    [MAX_BUFFER]. *)
Theorem X13_no_signal_without_cause (timeoutMs : N) (trace : list ProcEvent) :
  forallb (fun e => negb (isTimerFires e)) trace = true ->
  (killed (Qwen.runQwen timeoutMs trace) = false /\
   signals (Qwen.runQwen timeoutMs trace) = []) /\
  (killed (OpenAI.runCodex timeoutMs trace) = false /\
   signals (OpenAI.runCodex timeoutMs trace) = []) /\
  (strlen (outOf trace) <= Gemini.MAX_BUFFER -> strlen (errOf trace) <= Gemini.MAX_BUFFER ->
   killed (Gemini.runGemini timeoutMs trace) = false /\
   signals (Gemini.runGemini timeoutMs trace) = []).
Proof.
  intros Htr. split; [|split].
  - apply (run_unsignalled _ (qwen_step_unsignalled timeoutMs)); [exact Htr|easy].
  - apply (run_unsignalled _ (codex_step_unsignalled timeoutMs)); [exact Htr|easy].
  - intros Ho He. apply gemini_run_unsignalled; easy.
Qed.

Lemma X13_no_signal_without_cause_witness :
  killed (Qwen.runQwen 1000 [StdoutData "a"; KillTimerFires; Close None; SpawnError "x"])
    = false /\
  signals (Qwen.runQwen 1000 [StdoutData "a"; KillTimerFires; Close None; SpawnError "x"])
    = [].
Proof.
  apply (proj1 (X13_no_signal_without_cause 1000
                  [StdoutData "a"; KillTimerFires; Close None; SpawnError "x"] eq_refl)).
Defined.

(** ** openai_chat on a Codex transcript *)


